(** * Dataroma portfolio scraper: a shallow embedding of [dataroma_scraper.py]

    The development follows the source top-down:
    - [Text]   : Python [str] as lists of Unicode code points, with the
                 string methods the scraper calls ([lower], [upper], [strip],
                 [in], [startswith], [join], slicing);
    - [Regex]  : the fragment of [re] the six period patterns and the two
                 ticker patterns use, as a backtracking matcher;
    - [Soup]   : the BeautifulSoup tree and the queries the scraper makes
                 ([find], [find_all], [select], [get], [get_text]);
    - [Scraper]: [get_manager_links], [is_q4_2025], [parse_holdings], [main].
    The theorems come after the definitions. *)

From Stdlib Require Import List String Ascii NArith Arith Bool Lia QArith.
From stdpp Require Import base option list gmap strings.

Set Warnings "-register-all,-clear-no-such-hyp".

Local Open Scope N_scope.
Local Open Scope list_scope.

(* ===================================================================== *)
(** ** Text: Python [str] *)
(* ===================================================================== *)

(** A Python string is a sequence of Unicode code points. *)
Abbreviation char := N (only parsing).
Abbreviation str := (list N) (only parsing).

(** An ASCII literal of the source, as a [str]. *)
Definition cps (s : string) : str :=
  List.map N_of_ascii (list_ascii_of_string s).

(** The part of the Unicode character database that the interpreter consults
    for code points above U+007F and that is not written out below. *)
Class Unicode := {
  (** [str.isalnum] of one code point (used by [\b] through [\w]) *)
  uni_isalnum : char -> bool;
  (** full lower-casing of a non-ASCII code point; the text before (nearest
      first) and after it is there for the final-sigma rule *)
  uni_lower : str -> char -> str -> str;
  (** full upper-casing of a non-ASCII code point *)
  uni_upper : char -> str
}.

Definition is_ascii (c : char) : bool := c <? 128.
Definition is_upper_AZ (c : char) : bool := (65 <=? c) && (c <=? 90).
Definition is_lower_az (c : char) : bool := (97 <=? c) && (c <=? 122).
Definition is_digit_09 (c : char) : bool := (48 <=? c) && (c <=? 57).

Definition ascii_lower (c : char) : char := if is_upper_AZ c then c + 32 else c.
Definition ascii_upper (c : char) : char := if is_lower_az c then c - 32 else c.

(** [str.isspace] of one code point, which is also what [\s] matches and what
    [str.strip()] removes: the 29 white-space code points of CPython. *)
Definition is_space (c : char) : bool :=
  ((9 <=? c) && (c <=? 13)) || ((28 <=? c) && (c <=? 32))
  || (c =? 0x85) || (c =? 0xA0) || (c =? 0x1680)
  || ((0x2000 <=? c) && (c <=? 0x200A))
  || (c =? 0x2028) || (c =? 0x2029) || (c =? 0x202F) || (c =? 0x205F)
  || (c =? 0x3000).

Section Text.
Context {U : Unicode}.

(** [\w] of a [str] pattern: alphanumeric or underscore. *)
Definition is_word (c : char) : bool :=
  if is_ascii c
  then is_upper_AZ c || is_lower_az c || is_digit_09 c || (c =? 95)
  else uni_isalnum c.

(** [s.lower()]: code point by code point, left to right. *)
Fixpoint lower_from (before s : str) : str :=
  match s with
  | [] => []
  | c :: rest =>
      (if is_ascii c then [ascii_lower c] else uni_lower before c rest)
        ++ lower_from (c :: before) rest
  end.

Definition lower (s : str) : str := lower_from [] s.

(** [s.upper()]: code point by code point, without context.  The four
    non-ASCII letters that [[A-Z]] matches under [re.IGNORECASE] are written
    out: dotless i and long s have ASCII capitals, capital I with dot above
    and the Kelvin sign are capitals already. *)
Definition upper_char (c : char) : str :=
  if is_ascii c then [ascii_upper c]
  else if c =? 0x131 then [73]
  else if c =? 0x17F then [83]
  else if (c =? 0x130) || (c =? 0x212A) then [c]
  else uni_upper c.

Definition upper (s : str) : str := flat_map upper_char s.

End Text.

(** [s.strip()] *)
Fixpoint lstrip (s : str) : str :=
  match s with
  | c :: rest => if is_space c then lstrip rest else s
  | [] => []
  end.

Definition strip (s : str) : str := rev (lstrip (rev (lstrip s))).

(** [s.startswith(p)] *)
Fixpoint startswith (s p : str) {struct p} : bool :=
  match p, s with
  | [], _ => true
  | a :: p', b :: s' => (a =? b) && startswith s' p'
  | _ :: _, [] => false
  end.

(** [p in s] for strings *)
Fixpoint str_in (p s : str) : bool :=
  startswith s p ||
  match s with
  | [] => false
  | _ :: s' => str_in p s'
  end.

(** [a == b] for strings *)
Definition str_eqb (a b : str) : bool := bool_decide (a = b).

(** [not s]: the empty string is falsy *)
Definition falsy (s : str) : bool := match s with [] => true | _ => false end.

(** [sep.join(parts)] *)
Fixpoint join (sep : str) (parts : list str) : str :=
  match parts with
  | [] => []
  | [p] => p
  | p :: ps => p ++ sep ++ join sep ps
  end.

(** [s\[:n\]] *)
Definition slice_to (n : nat) (s : str) : str := firstn n s.

(* ===================================================================== *)
(** ** Regex: the fragment of [re] the scraper's patterns use *)
(* ===================================================================== *)

Module Regex.

(** An item of a character set [[...]]. *)
Inductive set_item :=
| One (c : char)            (* a literal member *)
| Range (lo hi : char)      (* lo-hi *)
| SpaceClass.               (* \s inside a set *)

Inductive regex :=
| Eps                                     (* the empty pattern *)
| Lit (c : char)                          (* a literal character *)
| CharSet (items : list set_item)         (* [...] *)
| Space                                   (* \s *)
| AnyChar                                 (* .  (no DOTALL: not a newline) *)
| WordB                                   (* \b *)
| Seq (r1 r2 : regex)                     (* r1 r2 *)
| Alt (r1 r2 : regex)                     (* r1|r2, r1 tried first *)
| Rep (lo : nat) (hi : option nat) (r : regex)  (* greedy r{lo,hi}; None: no upper bound *)
| Group (r : regex).                      (* (r): capturing group 1; (?:r) is r itself *)

Definition Star := Rep 0 None.
Definition Plus := Rep 1 None.
Definition Opt := Rep 0 (Some 1%nat).

(** The pattern that matches the characters of [s] one after the other. *)
Definition Str (s : string) : regex :=
  fold_right (fun c r => Seq (Lit c) r) Eps (cps s).

Definition seqs (rs : list regex) : regex := fold_right Seq Eps rs.

(** *** Matching one character *)

(** Simple lower-casing as [re.IGNORECASE] applies it to the subject
    character before comparing.  The patterns' cased characters are ASCII
    letters; the only code points above U+007F whose simple lower case is an
    ASCII letter are capital I with dot above (to i) and the Kelvin sign (to
    k), and every other one keeps a lower case that no ASCII letter or
    equivalent below equals, so it is left as it is. *)
Definition sre_lower (x : char) : char :=
  if is_upper_AZ x then x + 32
  else if x =? 0x130 then 105
  else if x =? 0x212A then 107
  else x.

(** The extra case-insensitive equivalents [re] adds for a lower-cased
    pattern character: dotless i for i, long s for s. *)
Definition sre_fixes (lo : char) : list char :=
  if lo =? 105 then [0x131] else if lo =? 115 then [0x17F] else [].

(** Does pattern character [c] match subject character [x]? *)
Definition lit_match (ic : bool) (c x : char) : bool :=
  if ic
  then let lo := sre_lower c in
       let lx := sre_lower x in
       (lx =? lo) || existsb (N.eqb lx) (sre_fixes lo)
  else x =? c.

(** The code points [lo, lo+1, ..., hi]. *)
Definition char_range (lo hi : char) : list char :=
  List.map (fun i => lo + N.of_nat i) (seq 0 (N.to_nat (hi + 1 - lo))).

Definition item_match (ic : bool) (it : set_item) (x : char) : bool :=
  match it with
  | One c => lit_match ic c x
  | Range lo hi =>
      if ic then existsb (fun c => lit_match ic c x) (char_range lo hi)
      else (lo <=? x) && (x <=? hi)
  | SpaceClass => is_space x
  end.

Definition set_match (ic : bool) (items : list set_item) (x : char) : bool :=
  existsb (fun it => item_match ic it x) items.

Section Matcher.
Context {U : Unicode}.
Context {A : Type}.

(** Is there a word character at this side of the position? *)
Definition word_at (c : option char) : bool :=
  match c with Some x => is_word x | None => false end.

(** A continuation receives the character before the current position, the
    rest of the subject and the contents of group 1 so far. *)
Definition kont := option char -> str -> option str -> option A.

(** One more greedy iteration of a repeat, then the rest; on failure, zero
    further iterations when the lower bound allows it.  [body] matches the
    repeated pattern once.  An iteration has to consume a character, so the
    rest of the subject bounds the number of iterations. *)
Fixpoint rep_loop (body : option char -> str -> option str -> kont -> option A)
    (fuel : nat) (lo : nat) (hi : option nat)
    (prev : option char) (s : str) (g : option str) (k : kont) : option A :=
  let stop := match lo with O => k prev s g | S _ => None end in
  match fuel, hi with
  | O, _ => stop
  | _, Some O => stop
  | S fuel', _ =>
      match body prev s g
              (fun prev' s' g' =>
                 if (length s' <? length s)%nat
                 then rep_loop body fuel' (pred lo) (option_map pred hi) prev' s' g' k
                 else None)
      with
      | Some a => Some a
      | None => stop
      end
  end.

(** [rmatch ic r prev s g k]: match [r] at the current position (before
    [s], after [prev]) and pass what follows to [k]; alternatives are tried
    in the order Python's backtracking tries them. *)
Fixpoint rmatch (ic : bool) (r : regex)
    (prev : option char) (s : str) (g : option str) (k : kont) : option A :=
  match r with
  | Eps => k prev s g
  | Lit c =>
      match s with
      | x :: s' => if lit_match ic c x then k (Some x) s' g else None
      | [] => None
      end
  | CharSet items =>
      match s with
      | x :: s' => if set_match ic items x then k (Some x) s' g else None
      | [] => None
      end
  | Space =>
      match s with
      | x :: s' => if is_space x then k (Some x) s' g else None
      | [] => None
      end
  | AnyChar =>
      match s with
      | x :: s' => if x =? 10 then None else k (Some x) s' g
      | [] => None
      end
  | WordB =>
      if xorb (word_at prev) (word_at (head s)) then k prev s g else None
  | Seq r1 r2 =>
      rmatch ic r1 prev s g (fun prev' s' g' => rmatch ic r2 prev' s' g' k)
  | Alt r1 r2 =>
      match rmatch ic r1 prev s g k with
      | Some a => Some a
      | None => rmatch ic r2 prev s g k
      end
  | Rep lo hi r' =>
      rep_loop (fun p t c k' => rmatch ic r' p t c k') (length s) lo hi prev s g k
  | Group r' =>
      rmatch ic r' prev s g
        (fun prev' s' _ => k prev' s' (Some (firstn (length s - length s') s)))
  end.

End Matcher.

Section Search.
Context {U : Unicode}.

(** Try the pattern at this position, then at each later one. *)
Fixpoint search_from (ic : bool) (r : regex) (prev : option char) (s : str)
    : option (option str) :=
  match rmatch ic r prev s None (fun _ _ g => Some g) with
  | Some g => Some g
  | None =>
      match s with
      | [] => None
      | x :: s' => search_from ic r (Some x) s'
      end
  end.

(** [re.search(r, s, flags)]: [None] when there is no match, otherwise
    [Some] of what [group(1)] holds. *)
Definition search (ic : bool) (r : regex) (s : str) : option (option str) :=
  search_from ic r None s.

End Search.

End Regex.

(* ===================================================================== *)
(** ** Soup: the BeautifulSoup tree and its queries *)
(* ===================================================================== *)

Module Soup.

(** An element of the parsed tree.  [Text] is a [NavigableString] (or
    [CData]): text that [get_text] reports.  [Special] is any other string
    object (comment, doctype, script or style contents), which [get_text]
    called on a table, a cell, a link or the document leaves out.  The
    document itself is the [Tag] named [[document]]. *)
Inductive node :=
| Text (s : str)
| Special (s : str)
| Tag (name : str) (attrs : list (str * str)) (children : list node).

(** [tag.descendants]: everything below the tag, in document order. *)
Fixpoint descendants (n : node) : list node :=
  match n with
  | Tag _ _ cs => flat_map (fun c => c :: descendants c) cs
  | _ => []
  end.

Definition tag_named (names : list str) (n : node) : bool :=
  match n with
  | Tag nm _ _ => existsb (str_eqb nm) names
  | _ => false
  end.

(** [tag.get(key)]: the dict of attributes, [None] when the key is absent. *)
Definition attr (n : node) (key : str) : option str :=
  match n with
  | Tag _ attrs _ => option_map snd (List.find (fun kv => str_eqb (fst kv) key) attrs)
  | _ => None
  end.

(** [tag.get(key, default)] *)
Definition get (n : node) (key : str) (dflt : str) : str :=
  default dflt (attr n key).

(** [tag.find_all(...)] with a filter on the elements *)
Definition find_all (p : node -> bool) (n : node) : list node :=
  List.filter p (descendants n).

(** [tag.find(...)]: the first of [find_all], or [None] *)
Definition find (p : node -> bool) (n : node) : option node :=
  head (find_all p n).

(** The white-space separated tokens of an attribute value: how the tree
    stores the multi-valued [class] attribute. *)
Fixpoint tokens_from (cur : str) (s : str) : list str :=
  match s with
  | [] => match cur with [] => [] | _ => [rev cur] end
  | c :: rest =>
      if is_space c
      then match cur with [] => tokens_from [] rest | _ => rev cur :: tokens_from [] rest end
      else tokens_from (c :: cur) rest
  end.

Definition tokens (s : str) : list str := tokens_from [] s.

(** [id="..."] as a filter: the attribute is there and equals the value. *)
Definition has_id (v : str) (n : node) : bool :=
  match attr n (cps "id") with Some x => str_eqb x v | None => false end.

(** [class_="..."] as a filter: one of the tag's classes is the value. *)
Definition has_class (v : str) (n : node) : bool :=
  match attr n (cps "class") with
  | Some x => existsb (str_eqb v) (tokens x)
  | None => false
  end.

(** The strings [get_text(..., strip=True)] joins: every text below the tag,
    stripped, the empty ones dropped. *)
Definition stripped_strings (n : node) : list str :=
  List.filter (fun s => negb (falsy s))
    (omap (fun d => match d with Text s => Some (strip s) | _ => None end)
          (descendants n)).

(** [tag.get_text(sep, strip=True)] *)
Definition get_text (sep : str) (n : node) : str :=
  join sep (stripped_strings n).

(** [tag.select("a[href*='<part>']")]: the anchors below the tag whose
    [href] attribute contains [part], in document order. *)
Definition select_a_href_contains (part : str) (n : node) : list node :=
  find_all (fun d => tag_named [cps "a"] d &&
                     match attr d (cps "href") with
                     | Some h => str_in part h
                     | None => false
                     end) n.

End Soup.

(* ===================================================================== *)
(** ** Exceptions *)
(* ===================================================================== *)

(** What can be raised: [IndexError] by an index of the scraper's own, and
    [Escaped] for an exception that comes out of a library call, by the
    name of its class. *)
Inductive exn :=
| IndexError
| Escaped (what : string).

Inductive result (A : Type) :=
| Ok (a : A)
| Raise (e : exn).
Arguments Ok {A} a.
Arguments Raise {A} e.

#[global] Instance result_ret : MRet result := fun A a => Ok a.
#[global] Instance result_bind : MBind result := fun A B f m =>
  match m with
  | Ok a => f a
  | Raise e => Raise e
  end.

(** [l\[i\]] for a non-negative index. *)
Definition py_index {A} (l : list A) (i : nat) : result A :=
  match nth_error l i with
  | Some x => Ok x
  | None => Raise IndexError
  end.

(* ===================================================================== *)
(** ** Scraper: [dataroma_scraper.py] *)
(* ===================================================================== *)

Module Scraper.
Import Regex Soup.
Local Open Scope string_scope.

Definition ch (a : ascii) : char := N_of_ascii a.

Definition BASE_URL : str := cps "https://www.dataroma.com".
Definition MANAGERS_URL : str := (BASE_URL ++ cps "/m/managers.php")%list.
Definition OUTPUT_FILE : string := "dataroma_q4_2025_buys.xlsx".

(** *** [get_manager_links], after the page is fetched *)

(** The dict [{"name": ..., "url": ...}]. *)
Record ManagerRef := { name : str; url : str }.

#[global] Instance ManagerRef_eq_dec : EqDecision ManagerRef.
Proof. solve_decision. Defined.

(** Line 60: the links the selector picks. *)
Definition manager_anchors (soup : node) : list node :=
  select_a_href_contains (cps "holdings.php?m=") soup.

(** Line 65 *)
Definition full_url_of (href : str) : str :=
  if startswith href (cps "/") then (BASE_URL ++ href)%list else href.

(** Lines 60-66: one entry per selected link that has a target and a name. *)
Definition manager_entries (soup : node) : list ManagerRef :=
  flat_map
    (fun link =>
       let href := get link (cps "href") [] in
       let name := get_text [] link in
       if falsy href || falsy name then []
       else [ {| name := name; url := full_url_of href |} ])
    (manager_anchors soup).

(** Lines 69-74: the loop over [managers] with the set [seen] and the list
    [unique]. *)
Definition dedup_step (st : gset (list N) * list ManagerRef) (m : ManagerRef)
    : gset (list N) * list ManagerRef :=
  let '(seen, unique) := st in
  if bool_decide (url m ∈ seen) then (seen, unique)
  else ({[ url m ]} ∪ seen, (unique ++ [m])%list).

Definition dedup (managers : list ManagerRef) : list ManagerRef :=
  snd (fold_left dedup_step managers (∅, [])).

Definition manager_links_of (soup : node) : list ManagerRef :=
  dedup (manager_entries soup).

(** *** [is_q4_2025] *)

Definition sep_set : regex := CharSet [One (ch "/"); One (ch "-")].
Definition day_31_30 : regex := Alt (Str "31") (Str "30").
Definition dec_ember : regex := Seq (Str "Dec") (Opt (Str "ember")).

Definition patterns : list regex :=
  [ (* Q4\s*2025 *)
    seqs [Str "Q4"; Star Space; Str "2025"];
    (* (?:31|30)\s*Dec(?:ember)?\s*2025 *)
    seqs [day_31_30; Star Space; dec_ember; Star Space; Str "2025"];
    (* Dec(?:ember)?\s*(?:31|30),?\s*2025 *)
    seqs [dec_ember; Star Space; day_31_30; Opt (Lit (ch ","));
          Star Space; Str "2025"];
    (* 12[/\-]31[/\-]2025 *)
    seqs [Str "12"; sep_set; Str "31"; sep_set; Str "2025"];
    (* 2025[/\-]12[/\-]31 *)
    seqs [Str "2025"; sep_set; Str "12"; sep_set; Str "31"];
    (* Portfolio\s+date[:\s]+.*2025[/\-]12 *)
    seqs [Str "Portfolio"; Plus Space; Str "date";
          Plus (CharSet [One (ch ":"); SpaceClass]); Star AnyChar;
          Str "2025"; sep_set; Str "12"] ].

(** *** [parse_holdings] *)

(** The dict appended to [results], with its six keys. *)
Record HoldingRecord := {
  Manager : str;
  Stock : str;
  Ticker : str;
  Recent_Activity : str;
  Portfolio_pct : str;
  Reported_Price : str
}.

(** [[?&]sym=([A-Z.]+)], searched with [re.IGNORECASE]; [sym_set] is its
    set [[A-Z.]]. *)
Definition sym_set : list set_item := [Range (ch "A") (ch "Z"); One (ch ".")].

Definition sym_re : regex :=
  seqs [CharSet [One (ch "?"); One (ch "&")]; Str "sym=";
        Group (Plus (CharSet sym_set))].

(** [[-–]\s*([A-Z]{1,5})\b], searched without flags; the second member of
    the set is the en dash U+2013. *)
Definition dash_re : regex :=
  seqs [CharSet [One (ch "-"); One 0x2013]; Star Space;
        Group (Rep 1 (Some 5%nat) (CharSet [Range (ch "A") (ch "Z")]));
        WordB].

(** [m.group(1)].  Both ticker patterns go through their group on every
    match ([sym_re_group_set], [dash_re_group_set] below), so the [None]
    that Python gives for a group that took no part never arises. *)
Definition group1 (m : option str) : str := default [] m.

(** Lines 109-119: the table by id, else by class, else the first table
    whose leading text names both columns. *)
Definition is_table : node -> bool := tag_named [cps "table"].

Definition locate_table (soup : node) : option node :=
  match find (fun t => is_table t && has_id (cps "grid") t) soup with
  | Some table => Some table
  | None =>
      match find (fun t => is_table t && has_class (cps "holdings") t) soup with
      | Some table => Some table
      | None =>
          head (List.filter
                  (fun t =>
                     let header_text := slice_to 200 (get_text (cps " ") t) in
                     str_in (cps "Stock") header_text
                     && str_in (cps "Activity") header_text)
                  (find_all is_table soup))
      end
  end.

(** Lines 136-146: one header, at index [i], against the keyword chain. *)
Definition map_column (col_map : gmap string nat) (i : nat) (h : str)
    : gmap string nat :=
  if str_in (cps "stock") h then <["stock" := i]> col_map
  else if str_in (cps "activity") h then <["activity" := i]> col_map
  else if str_in (cps "portfolio") h && str_in (cps "%") h
       then <["portfolio_pct" := i]> col_map
  else if str_in (cps "reported") h
          || (str_in (cps "price") h && str_in (cps "reported") h)
       then <["price" := i]> col_map
  else if str_in (cps "price") h && negb (bool_decide (is_Some (col_map !! "price")))
       then <["price" := i]> col_map
  else col_map.

(** [enumerate(l)], counting from [start] *)
Fixpoint enumerate {A} (start : nat) (l : list A) : list (nat * A) :=
  match l with
  | [] => []
  | x :: l' => (start, x) :: enumerate (S start) l'
  end.

Definition build_col_map (headers : list str) : gmap string nat :=
  fold_left (fun col_map ih => map_column col_map (fst ih) (snd ih))
            (enumerate 0 headers) ∅.

(** [col_map.get(key, dflt)] *)
Definition col_get (col_map : gmap string nat) (key : string) (dflt : nat) : nat :=
  default dflt (col_map !! key).

Section WithUnicode.
Context {U : Unicode}.

(** The text the period patterns are searched in. *)
Definition page_text (soup : node) : str := get_text (cps " ") soup.

Definition is_q4_2025 (soup : node) : bool :=
  existsb (fun pattern => bool_decide (is_Some (search true pattern (page_text soup))))
          patterns.

(** Lines 130-132 *)
Definition header_texts (header_row : node) : list str :=
  List.map (fun th => lower (get_text (cps " ") th))
           (find_all (tag_named [cps "th"; cps "td"]) header_row).

(** [if idx < len(cells): text = cells\[idx\].get_text(" ", strip=True)],
    with the empty string otherwise. *)
Definition cell_text (cells : list node) (idx : nat) : result str :=
  if (idx <? length cells)%nat
  then cell ← py_index cells idx; mret (get_text (cps " ") cell)
  else mret [].

(** Lines 156-179: the stock name and the ticker of a row. *)
Definition stock_and_ticker (col_map : gmap string nat) (cells : list node)
    : result (str * str) :=
  let stock_idx := col_get col_map "stock" 1 in
  '(stock_text, ticker) ←
    (if (stock_idx <? length cells)%nat
     then
       stock_cell ← py_index cells stock_idx;
       let stock_text := get_text (cps " ") stock_cell in
       match find (tag_named [cps "a"]) stock_cell with
       | Some stock_link =>
           let stock_text := get_text (cps " ") stock_link in
           let link_href := get stock_link (cps "href") [] in
           match search true sym_re link_href with
           | Some sym_match => mret (stock_text, upper (group1 sym_match))
           | None => mret (stock_text, [])
           end
       | None => mret (stock_text, [])
       end
     else mret ([], []));
  if falsy ticker
  then
    match search false dash_re stock_text with
    | Some ticker_match => mret (stock_text, group1 ticker_match)
    | None => mret (stock_text, ticker)
    end
  else mret (stock_text, ticker).

(** The test of line 189 on the activity text. *)
Definition is_buy_or_add (activity_text : str) : bool :=
  let activity_lower := lower activity_text in
  str_in (cps "buy") activity_lower || str_in (cps "add") activity_lower.

(** Lines 151-211: the body of the loop over the data rows; [None] is a
    [continue]. *)
Definition parse_row (col_map : gmap string nat) (manager_name : str) (row : node)
    : result (option HoldingRecord) :=
  let cells := find_all (tag_named [cps "td"]) row in
  if (length cells <? 3)%nat then mret None
  else
    '(stock_text, ticker) ← stock_and_ticker col_map cells;
    activity_text ← cell_text cells (col_get col_map "activity" 4);
    if negb (is_buy_or_add activity_text) then mret None
    else
      pct_text ← cell_text cells (col_get col_map "portfolio_pct" 2);
      price_text ← cell_text cells (col_get col_map "price" 5);
      mret (Some {| Manager := manager_name;
                    Stock := strip stock_text;
                    Ticker := ticker;
                    Recent_Activity := activity_text;
                    Portfolio_pct := pct_text;
                    Reported_Price := price_text |}).

(** The loop of line 150, threading [results]. *)
Fixpoint rows_loop (col_map : gmap string nat) (manager_name : str)
    (rows : list node) (results : list HoldingRecord)
    : result (list HoldingRecord) :=
  match rows with
  | [] => mret results
  | row :: rest =>
      r ← parse_row col_map manager_name row;
      rows_loop col_map manager_name rest
        (match r with Some rec => (results ++ [rec])%list | None => results end)
  end.

Definition is_tr : node -> bool := tag_named [cps "tr"].

(** [parse_holdings(soup, manager_name)]; the warning it prints when no table
    is found is [parse_holdings_warns]. *)
Definition parse_holdings (soup : node) (manager_name : str)
    : result (list HoldingRecord) :=
  match locate_table soup with
  | None => mret []
  | Some table =>
      match find is_tr table with
      | None => mret []
      | Some header_row =>
          let col_map := build_col_map (header_texts header_row) in
          let rows := tail (find_all is_tr table) in
          rows_loop col_map manager_name rows []
      end
  end.

Definition parse_holdings_warns (soup : node) : bool :=
  bool_decide (locate_table soup = None).

(** *** [main] *)

(** A run depends on what is outside the program at two places: the
    requests, taken through [Web], and the export, taken through [Writer].
    Both can raise.  The calls of [print], [time.sleep] and
    [random.uniform] are taken to return. *)

(** What the body of [fetch_page]'s [try] does for a URL: it returns the
    parsed page, or raises [requests.RequestException] (a subclass of it
    included), or raises an exception of another class, in [session.get]
    or in [BeautifulSoup(...)]. *)
Inductive reply :=
| Page (soup : node)
| RequestException
| OtherException (e : exn).

Definition Web := str -> reply.

(** What [df.to_excel(file, index=False, sheet_name=sheet)] does with the
    columns and rows it is given: [None] when the file is written, or the
    exception it raises. *)
Definition Writer := string -> string -> list string -> list (list str) -> option exn.

(** What the run prints and writes, in order (the banner lines are left
    out). *)
Inductive event :=
| Request (url : str)                  (* fetch_page: session.get(url, ...) *)
| RequestFailed (url : str)            (* fetch_page: "[ERROR] ..." *)
| FatalNoIndex                         (* get_manager_links: "[FATAL] ..." *)
| FoundManagers (n : nat)              (* line 76 *)
| FatalNoManagers                      (* main: "[FATAL] ..." *)
| Checking (i n : nat) (name : str)    (* line 244 *)
| Sleep (seconds : Q)                  (* time.sleep(random.uniform(1, 3)) *)
| EntityError                          (* "-> ERROR (...)" *)
| EntitySkip                           (* "-> Skip (...)" *)
| Warn (name : str)                    (* parse_holdings: "[WARN] ..." *)
| EntityFound (n : nat)                (* "-> Found! (...)" *)
| EntityNoBuys                         (* line 265 *)
| Summary (q4_count skip_count total : nat)   (* lines 273-275 *)
| ToExcel (file sheet : string) (columns : list string) (rows : list (list str))
                                       (* line 284, when to_excel returns *)
| Saved (file : string)                (* line 285 *)
| NoData                               (* line 287 *)
| Done.                                (* line 290 *)

Inductive exit_status :=
| Completed                            (* main returned *)
| SysExit (code : nat)                 (* sys.exit(code) *)
| Uncaught (e : exn).                  (* an exception reached the top *)

Record outcome := { trace : list event; status : exit_status }.

(** The three accumulators of the loop of line 241. *)
Record tally := {
  all_records : list HoldingRecord;
  q4_count : nat;
  skip_count : nat
}.

(** [fetch_page(url, session)]: the page; or, for a
    [requests.RequestException], the error line and [None]; any other
    exception is not caught. *)
Definition fetch_page (web : Web) (url : str) : list event * result (option node) :=
  match web url with
  | Page soup => ([Request url], Ok (Some soup))
  | RequestException => ([Request url; RequestFailed url], Ok None)
  | OtherException e => ([Request url], Raise e)
  end.

(** [get_manager_links(session)]; [Ok None] is [sys.exit(1)]. *)
Definition get_manager_links (web : Web)
    : list event * result (option (list ManagerRef)) :=
  match fetch_page web MANAGERS_URL with
  | (out, Raise e) => (out, Raise e)
  | (out, Ok None) => ((out ++ [FatalNoIndex])%list, Ok None)
  | (out, Ok (Some soup)) =>
      let unique := manager_links_of soup in
      ((out ++ [FoundManagers (length unique)])%list, Ok (Some unique))
  end.

(** Lines 242-266: one pass of the loop body, for the [i]-th of [n]
    managers, after a pause of [delay] seconds. *)
Definition visit (web : Web) (delay : Q) (n i : nat) (mgr : ManagerRef) (t : tally)
    : list event * result tally :=
  let pre := [Checking i n (name mgr); Sleep delay] in
  match fetch_page web (url mgr) with
  | (out, Raise e) => ((pre ++ out)%list, Raise e)
  | (out, Ok None) => ((pre ++ out ++ [EntityError])%list, Ok t)
  | (out, Ok (Some soup)) =>
      let pre := (pre ++ out)%list in
      if negb (is_q4_2025 soup)
      then ((pre ++ [EntitySkip])%list,
            Ok {| all_records := all_records t;
                  q4_count := q4_count t;
                  skip_count := skip_count t + 1 |})
      else
        let warns := if parse_holdings_warns soup then [Warn (name mgr)] else [] in
        match parse_holdings soup (name mgr) with
        | Raise e => ((pre ++ warns)%list, Raise e)
        | Ok records =>
            match records with
            | _ :: _ =>
                ((pre ++ warns ++ [EntityFound (length records)])%list,
                 Ok {| all_records := (all_records t ++ records)%list;
                       q4_count := q4_count t + 1;
                       skip_count := skip_count t |})
            | [] =>
                ((pre ++ warns ++ [EntityNoBuys])%list,
                 Ok {| all_records := all_records t;
                       q4_count := q4_count t + 1;
                       skip_count := skip_count t |})
            end
        end
  end.

(** The loop of line 241 from its [i]-th pass on; [rand_uniform i] is what
    [random.uniform(1, 3)] returns in that pass. *)
Fixpoint visit_all (web : Web) (rand_uniform : nat -> Q) (n i : nat)
    (managers : list ManagerRef) (t : tally) : list event * result tally :=
  match managers with
  | [] => ([], Ok t)
  | mgr :: rest =>
      match visit web (rand_uniform i) n i mgr t with
      | (out, Raise e) => (out, Raise e)
      | (out, Ok t') =>
          let '(out', r) := visit_all web rand_uniform n (S i) rest t' in
          ((out ++ out')%list, r)
      end
  end.

(** The six keys of a record, in the order the dict was built. *)
Definition record_items (r : HoldingRecord) : list (string * str) :=
  [("Manager", Manager r); ("Stock", Stock r); ("Ticker", Ticker r);
   ("Recent Activity", Recent_Activity r); ("Portfolio %", Portfolio_pct r);
   ("Reported Price", Reported_Price r)].

(** [pd.DataFrame(all_records)]: a column per key, a row per record. *)
Record DataFrame := {
  df_columns : list string;
  df_rows : list (list (string * str))
}.

Definition DataFrame_of (records : list HoldingRecord) : DataFrame :=
  {| df_columns :=
       match records with
       | r :: _ => List.map fst (record_items r)
       | [] => []
       end;
     df_rows := List.map record_items records |}.

(** [df\[cols\]] for columns that exist *)
Definition df_select (cols : list string) (df : DataFrame) : DataFrame :=
  {| df_columns := cols;
     df_rows :=
       List.map (fun row =>
                   omap (fun c => List.find (fun kv => String.eqb (fst kv) c) row) cols)
                (df_rows df) |}.

Definition export_columns : list string :=
  ["Manager"; "Stock"; "Ticker"; "Recent Activity"; "Portfolio %"; "Reported Price"].

(** Lines 268-290: the summary, then the export or the line that says
    there is none, then the last line; an exception of [to_excel] is not
    caught. *)
Definition save_results (writer : Writer) (t : tally) : list event * result unit :=
  let summary := Summary (q4_count t) (skip_count t) (length (all_records t)) in
  match all_records t with
  | _ :: _ =>
      let df := DataFrame_of (all_records t) in
      let df := df_select
                  (List.filter (fun c => bool_decide (c ∈ df_columns df)) export_columns)
                  df in
      let rows := List.map (List.map snd) (df_rows df) in
      match writer OUTPUT_FILE "Q4 2025 Buys" (df_columns df) rows with
      | Some e => ([summary], Raise e)
      | None =>
          ([summary; ToExcel OUTPUT_FILE "Q4 2025 Buys" (df_columns df) rows;
            Saved OUTPUT_FILE; Done], Ok tt)
      end
  | [] => ([summary; NoData; Done], Ok tt)
  end.

Definition main (web : Web) (writer : Writer) (rand_uniform : nat -> Q) : outcome :=
  match get_manager_links web with
  | (out, Raise e) => {| trace := out; status := Uncaught e |}
  | (out, Ok None) => {| trace := out; status := SysExit 1 |}
  | (out, Ok (Some managers)) =>
      match managers with
      | [] => {| trace := (out ++ [FatalNoManagers])%list; status := SysExit 1 |}
      | _ :: _ =>
          let t0 := {| all_records := []; q4_count := 0; skip_count := 0 |} in
          match visit_all web rand_uniform (length managers) 1 managers t0 with
          | (out', Raise e) => {| trace := (out ++ out')%list; status := Uncaught e |}
          | (out', Ok t) =>
              match save_results writer t with
              | (out'', Raise e) =>
                  {| trace := (out ++ out' ++ out'')%list; status := Uncaught e |}
              | (out'', Ok _) =>
                  {| trace := (out ++ out' ++ out'')%list; status := Completed |}
              end
          end
      end
  end.

End WithUnicode.

End Scraper.

(* ===================================================================== *)
(** ** Vocabulary of the properties *)
(* ===================================================================== *)

Import Regex Soup Scraper.

(** [v] occurs in [text] as a substring. *)
Definition occurs_in (v text : str) : Prop :=
  exists pre post, text = pre ++ v ++ post.

(** [v] spells the lower-case ASCII word [w] in some letter case. *)
Definition spells (v w : str) : Prop :=
  Forall2 (fun a b => is_ascii a = true /\ ascii_lower a = b) v w.

(** A character database in which no code point above U+007F is cased or
    alphanumeric; it serves to run the definitions on ASCII pages. *)
Definition plain_data : Unicode :=
  {| uni_isalnum := fun _ => false;
     uni_lower := fun _ c _ => [c];
     uni_upper := fun c => [c] |}.

(** The text of the cell at [idx], empty when the row is shorter. *)
Definition text_at (cells : list node) (idx : nat) : str :=
  match nth_error cells idx with
  | Some cell => get_text (cps " ") cell
  | None => []
  end.

(** The cells of a row as [parse_row] sees them, and the activity text it
    tests. *)
Definition row_cells (row : node) : list node :=
  find_all (tag_named [cps "td"]) row.

Definition activity_of (col_map : gmap string nat) (row : node) : str :=
  text_at (row_cells row) (col_get col_map "activity"%string 4).

(** What a row contributes, [None] also standing in for an exception (of
    which [parse_row_total] shows there is none). *)
Definition row_record {U : Unicode} (col_map : gmap string nat) (mgr : str) (row : node)
    : option HoldingRecord :=
  match parse_row col_map mgr row with
  | Ok r => r
  | Raise _ => None
  end.

(** *** Pages and rows used in the examples *)

Definition el (nm : string) (attrs : list (str * str)) (children : list node) : node :=
  Tag (cps nm) attrs children.

Definition cell (nm s : string) : node := el nm [] [Text (cps s)].

Definition document (children : list node) : node := el "[document]" [] children.

(** The table of the extractor's example, under any attributes. *)
Definition apple_header : node :=
  el "tr" [] [cell "th" "Stock"; cell "th" "Recent Activity";
              cell "th" "Portfolio %"; cell "th" "Reported Price"].

Definition apple_row : node :=
  el "tr" [] [cell "td" "Apple Inc - AAPL"; cell "td" "Buy";
              cell "td" "5.2%"; cell "td" "$150.00"].

Definition apple_table (attrs : list (str * str)) : node :=
  el "table" attrs [apple_header; apple_row].

Definition apple_page (attrs : list (str * str)) : node :=
  document [apple_table attrs].

(** The example with a second row, of a sale. *)
Definition sell_row : node :=
  el "tr" [] [cell "td" "Tesla Inc - TSLA"; cell "td" "Sell"; cell "td" "1.1%";
              cell "td" "$200.00"].

Definition sell_table : node :=
  el "table" [(cps "id", cps "grid")] [apple_header; apple_row; sell_row].

Definition sell_page : node := document [sell_table].

Definition apple_record (mgr : str) : HoldingRecord :=
  {| Manager := mgr;
     Stock := cps "Apple Inc - AAPL";
     Ticker := cps "AAPL";
     Recent_Activity := cps "Buy";
     Portfolio_pct := cps "5.2%";
     Reported_Price := cps "$150.00" |}.

Definition apple_columns : gmap string nat :=
  {[ "stock" := 0%nat; "activity" := 1%nat; "portfolio_pct" := 2%nat;
     "price" := 3%nat ]}%string.

(** A row of two cells. *)
Definition short_row : node := el "tr" [] [cell "td" "Apple Inc - AAPL"; cell "td" "Buy"].

(** *** The Index Collector, in the words of the specification *)

(** A selected link that has a target and a visible name. *)
Definition named_anchor (link : node) : bool :=
  negb (falsy (get link (cps "href") [])) && negb (falsy (get_text [] link)).

(** The name and the resolved absolute URL of a link. *)
Definition entry_of (link : node) : ManagerRef :=
  {| name := get_text [] link; url := full_url_of (get link (cps "href") []) |}.

(** Deduplicate by URL, preserving first-seen order: an entry stays when no
    earlier entry has its URL. *)
Fixpoint spec_first_seen (ms : list ManagerRef) : list ManagerRef :=
  match ms with
  | [] => []
  | m :: rest => m :: filter (fun m' => url m' <> url m) (spec_first_seen rest)
  end.

(** A listing page whose only manager link wraps an image and has no text. *)
Definition image_link : node :=
  el "a" [(cps "href", cps "/m/holdings.php?m=BRK")] [el "img" [] []].

Definition image_link_page : node := document [image_link].

(** *** Reading the trace of a run *)

(** The trace without its pauses. *)
Definition no_sleep (evs : list event) : list event :=
  List.filter (fun e => match e with Sleep _ => false | _ => true end) evs.

(** The files written: name, sheet, columns, rows. *)
Definition exports (evs : list event)
    : list (string * string * list string * list (list str)) :=
  omap (fun e => match e with
                 | ToExcel file sheet columns rows => Some (file, sheet, columns, rows)
                 | _ => None
                 end) evs.

(** The skipped-entity count of the end-of-run summary. *)
Definition reported_skipped (evs : list event) : option nat :=
  head (omap (fun e => match e with Summary _ k _ => Some k | _ => None end) evs).

(** How many detail pages could not be fetched. *)
Definition fetch_errors (evs : list event) : nat :=
  length (List.filter (fun e => match e with EntityError => true | _ => false end) evs).

(** The six values of a record, in the order of the export. *)
Definition record_values (r : HoldingRecord) : list str :=
  [Manager r; Stock r; Ticker r; Recent_Activity r; Portfolio_pct r; Reported_Price r].

(** A listing page with one named manager link, and a site on which only
    the listing page can be fetched. *)
Definition one_link_page : node :=
  document [el "a" [(cps "href", cps "/m/holdings.php?m=BRK")]
               [Text (cps "Warren Buffett")]].

Definition buffett : ManagerRef :=
  {| name := cps "Warren Buffett";
     url := cps "https://www.dataroma.com/m/holdings.php?m=BRK" |}.

Definition web_detail_down : Web :=
  fun u => if str_eqb u MANAGERS_URL then Page one_link_page else RequestException.

(** A writer that writes whatever it is given. *)
Definition plain_writer : Writer := fun _ _ _ _ => None.

(** The writer of openpyxl, which refuses a cell with a control character
    other than tab, line feed and carriage return. *)
Definition illegal_char (c : N) : bool :=
  (c <=? 8) || ((11 <=? c) && (c <=? 12)) || ((14 <=? c) && (c <=? 31)).

Definition openpyxl_writer : Writer :=
  fun _ _ _ rows =>
    if existsb (existsb (existsb illegal_char)) rows
    then Some (Escaped "IllegalCharacterError")
    else None.

(** The same site with the example table on the detail page, under a
    heading that names the period. *)
Definition apple_detail_page : node :=
  document [cell "p" "Period: Q4 2025"; apple_table [(cps "id", cps "grid")]].

Definition web_apple : Web :=
  fun u => if str_eqb u MANAGERS_URL then Page one_link_page
           else if str_eqb u (url buffett) then Page apple_detail_page
           else RequestException.

(** The same site when the detail page has a price with the control
    character U+0001 in it. *)
Definition control_row : node :=
  el "tr" [] [cell "td" "Apple Inc - AAPL"; cell "td" "Buy"; cell "td" "5.2%";
              el "td" [] [Text (cps "$150" ++ [1] ++ cps ".00")]].

Definition control_detail_page : node :=
  document [cell "p" "Period: Q4 2025";
            el "table" [(cps "id", cps "grid")] [apple_header; control_row]].

Definition web_control : Web :=
  fun u => if str_eqb u MANAGERS_URL then Page one_link_page
           else if str_eqb u (url buffett) then Page control_detail_page
           else RequestException.

(** The same site when fetching the detail page raises an exception that
    is not a [requests.RequestException]. *)
Definition web_detail_crash : Web :=
  fun u => if str_eqb u MANAGERS_URL then Page one_link_page
           else OtherException (Escaped "ParserRejectedMarkup").

Definition two_seconds : nat -> Q := fun _ => 2%Q.
Definition three_seconds : nat -> Q := fun _ => 3%Q.

(** A stock link whose [sym] parameter is the Kelvin sign U+212A. *)
Definition kelvin_row : node :=
  el "tr" []
     [el "td" []
         [el "a" [(cps "href", cps "/m/stock.php?sym=" ++ [0x212A])]
             [Text (cps "Kelvin Corp")]];
      cell "td" "Buy"; cell "td" "1.0%"; cell "td" "$10.00"].

Definition kelvin_page : node :=
  document [el "table" [(cps "id", cps "grid")] [apple_header; kelvin_row]].

(** A ticker made of capitals A-Z and periods only. *)
Definition plain_ticker (t : str) : bool :=
  forallb (fun c => is_upper_AZ c || (c =? 46)) t.

(** *** What one entity contributes to a run *)

(** How the pass over one manager ends: the request failed, the period
    filter rejected the page, the page went to the extractor, or an
    exception came out of the fetch. *)
Inductive entity_kind := Failed | Skipped | Qualified | Crashed.

#[global] Instance entity_kind_eq_dec : EqDecision entity_kind.
Proof. solve_decision. Defined.

Definition kind_of {U : Unicode} (web : Web) (mgr : ManagerRef) : entity_kind :=
  match web (url mgr) with
  | RequestException => Failed
  | OtherException _ => Crashed
  | Page soup => if is_q4_2025 soup then Qualified else Skipped
  end.

(** The exception that ends the loop: that of the first manager whose
    fetch lets one out. *)
Fixpoint first_crash (web : Web) (managers : list ManagerRef) : option exn :=
  match managers with
  | [] => None
  | mgr :: rest =>
      match web (url mgr) with
      | OtherException e => Some e
      | _ => first_crash web rest
      end
  end.

(** The managers the loop gets to: all of them, or those up to and
    including the first whose fetch lets an exception out. *)
Fixpoint reached (web : Web) (managers : list ManagerRef) : list ManagerRef :=
  match managers with
  | [] => []
  | mgr :: rest =>
      match web (url mgr) with
      | OtherException _ => [mgr]
      | _ => mgr :: reached web rest
      end
  end.

(** The pauses and the requests of a trace, in order. *)
Definition timeline (evs : list event) : list event :=
  List.filter (fun e => match e with Sleep _ | Request _ => true | _ => false end) evs.

(** The pause and the request of a pass, in the order of lines 246-248. *)
Definition pause_then_request (rand : nat -> Q) (im : nat * ManagerRef) : list event :=
  [Sleep (rand (fst im)); Request (url (snd im))].

(** What [to_excel] is given for a list of records. *)
Definition export_of (records : list HoldingRecord)
    : string * string * list string * list (list str) :=
  (OUTPUT_FILE, "Q4 2025 Buys"%string, export_columns, record_values <$> records).

(** The exception of the export, if there is one: none without records. *)
Definition export_error (writer : Writer) (records : list HoldingRecord) : option exn :=
  match records with
  | [] => None
  | _ :: _ => writer OUTPUT_FILE "Q4 2025 Buys"%string export_columns
                     (record_values <$> records)
  end.

(** The files a run leaves for a list of records. *)
Definition written (writer : Writer) (records : list HoldingRecord)
    : list (string * string * list string * list (list str)) :=
  match records with
  | [] => []
  | _ :: _ => match export_error writer records with
              | None => [export_of records]
              | Some _ => []
              end
  end.

(** The tally the loop starts from. *)
Definition no_tally : tally := {| all_records := []; q4_count := 0; skip_count := 0 |}.

(** The records of one manager: those of its page when the page is fetched
    and accepted, none otherwise. *)
Definition entity_records {U : Unicode} (web : Web) (mgr : ManagerRef)
    : list HoldingRecord :=
  match web (url mgr) with
  | Page soup =>
      if is_q4_2025 soup
      then match parse_holdings soup (name mgr) with
           | Ok records => records
           | Raise _ => []
           end
      else []
  | _ => []
  end.

(** One for [true], nothing for [false]. *)
Definition bump (b : bool) : nat := if b then 1%nat else 0%nat.

(** How many managers end in the given way. *)
Definition count_kind {U : Unicode} (web : Web) (k : entity_kind)
    (managers : list ManagerRef) : nat :=
  length (List.filter (fun mgr => bool_decide (kind_of web mgr = k)) managers).

(** The pauses of a run, in order. *)
Definition pauses (evs : list event) : list Q :=
  omap (fun e => match e with Sleep d => Some d | _ => None end) evs.

(** The end-of-run summaries of a trace. *)
Definition summaries (evs : list event) : list (nat * nat * nat) :=
  omap (fun e => match e with Summary q k n => Some (q, k, n) | _ => None end) evs.

(** *** The column map, header by header *)

(** The field the keyword chain of lines 137-146 gives a header to, the
    test on an already assigned price column left aside. *)
Definition field_of (h : str) : option string :=
  if str_in (cps "stock") h then Some "stock"%string
  else if str_in (cps "activity") h then Some "activity"%string
  else if str_in (cps "portfolio") h && str_in (cps "%") h then Some "portfolio_pct"%string
  else if str_in (cps "reported") h || str_in (cps "price") h then Some "price"%string
  else None.

(** The index of the last element of a list that satisfies [p]. *)
Fixpoint last_index {A} (p : A -> bool) (start : nat) (l : list A) : option nat :=
  match l with
  | [] => None
  | x :: l' =>
      match last_index p (S start) l' with
      | Some i => Some i
      | None => if p x then Some start else None
      end
  end.

(** The index of the first element of a list that satisfies [p]. *)
Fixpoint first_index {A} (p : A -> bool) (start : nat) (l : list A) : option nat :=
  match l with
  | [] => None
  | x :: l' => if p x then Some start else first_index p (S start) l'
  end.

(** The header goes to the given field. *)
Definition goes_to (key : string) (h : str) : bool :=
  bool_decide (field_of h = Some key).

(** A text without white space at either end. *)
Definition trimmed (s : str) : Prop :=
  (forall c, head s = Some c -> is_space c = false)
  /\ (forall c, last s = Some c -> is_space c = false).

(** A page with two tables, the second of which has the id. *)
Definition two_tables_page : node :=
  document [el "table" [(cps "class", cps "holdings")] [short_row];
            apple_table [(cps "id", cps "grid")]].

(** *** Tickers and patterns *)

(** The code points a ticker can be made of: capitals A-Z, the period,
    capital I with dot above and the Kelvin sign. *)
Definition ticker_char (c : N) : bool :=
  is_upper_AZ c || (c =? 46) || (c =? 0x130) || (c =? 0x212A).

(** The pattern does not look at what surrounds the text it reads. *)
Fixpoint no_wordb (r : regex) : bool :=
  match r with
  | WordB => false
  | Seq r1 r2 | Alt r1 r2 => no_wordb r1 && no_wordb r2
  | Rep _ _ r' | Group r' => no_wordb r'
  | _ => true
  end.

(** An ASCII character that is not a letter. *)
Definition uncased (c : N) : Prop :=
  c < 128 /\ is_upper_AZ c = false /\ is_lower_az c = false.

(** A run of white space. *)
Definition blank (ws : str) : Prop := Forall (fun c => is_space c = true) ws.

(** A page that consists of one paragraph of text. *)
Definition text_page (s : string) : node := document [cell "p" s].

(** The character before the position reached after reading [w]. *)
Definition after (prev : option char) (w : str) : option char :=
  match last w with
  | Some c => Some c
  | None => prev
  end.

(** [Matches ic r prev w rest g g']: the pattern [r] can read [w], which
    follows the character [prev] and is followed by [rest]; group 1 holds [g]
    before and [g'] after. *)
Inductive Matches {U : Unicode} (ic : bool)
    : regex -> option char -> str -> str -> option str -> option str -> Prop :=
| M_Eps prev rest g :
    Matches ic Eps prev [] rest g g
| M_Lit c x prev rest g :
    lit_match ic c x = true ->
    Matches ic (Lit c) prev [x] rest g g
| M_CharSet items x prev rest g :
    set_match ic items x = true ->
    Matches ic (CharSet items) prev [x] rest g g
| M_Space x prev rest g :
    is_space x = true ->
    Matches ic Space prev [x] rest g g
| M_AnyChar x prev rest g :
    (x =? 10) = false ->
    Matches ic AnyChar prev [x] rest g g
| M_WordB prev rest g :
    xorb (word_at prev) (word_at (head rest)) = true ->
    Matches ic WordB prev [] rest g g
| M_Seq r1 r2 prev w1 w2 rest g g1 g2 :
    Matches ic r1 prev w1 (w2 ++ rest) g g1 ->
    Matches ic r2 (after prev w1) w2 rest g1 g2 ->
    Matches ic (Seq r1 r2) prev (w1 ++ w2) rest g g2
| M_AltL r1 r2 prev w rest g g' :
    Matches ic r1 prev w rest g g' ->
    Matches ic (Alt r1 r2) prev w rest g g'
| M_AltR r1 r2 prev w rest g g' :
    Matches ic r2 prev w rest g g' ->
    Matches ic (Alt r1 r2) prev w rest g g'
| M_RepStop hi r prev rest g :
    Matches ic (Rep 0 hi r) prev [] rest g g
| M_RepStep lo hi r prev w1 w2 rest g g1 g2 :
    hi <> Some O ->
    w1 <> [] ->
    Matches ic r prev w1 (w2 ++ rest) g g1 ->
    Matches ic (Rep (pred lo) (option_map pred hi) r) (after prev w1) w2 rest g1 g2 ->
    Matches ic (Rep lo hi r) prev (w1 ++ w2) rest g g2
| M_Group r prev w rest g g' :
    Matches ic r prev w rest g g' ->
    Matches ic (Group r) prev w rest g (Some w).

(** The pattern has no capturing group. *)
Fixpoint no_group (r : regex) : bool :=
  match r with
  | Seq r1 r2 | Alt r1 r2 => no_group r1 && no_group r2
  | Rep _ _ r' => no_group r'
  | Group _ => false
  | _ => true
  end.

(* ===================================================================== *)
(** ** Lemmas on text *)
(* ===================================================================== *)

Lemma startswith_app (p rest : str) : startswith (p ++ rest) p = true.
Proof.
  induction p as [|a p IH]; simpl; [reflexivity|].
  rewrite N.eqb_refl. exact IH.
Qed.

Lemma startswith_inv (s p : str) :
  startswith s p = true -> exists rest, s = p ++ rest.
Proof.
  revert s. induction p as [|a p IH]; intros s Hs; simpl in Hs.
  - exists s. reflexivity.
  - destruct s as [|b s]; [discriminate|].
    apply andb_prop in Hs as [Hab Hs]. apply N.eqb_eq in Hab. subst b.
    destruct (IH _ Hs) as [rest ->]. exists rest. reflexivity.
Qed.

Lemma str_in_unfold (p s : str) :
  str_in p s = startswith s p || match s with [] => false | _ :: s' => str_in p s' end.
Proof. destruct s; reflexivity. Qed.

Lemma str_in_occurs (p s : str) : str_in p s = true <-> occurs_in p s.
Proof.
  split.
  - induction s as [|c s IH]; simpl; intros Hs.
    + rewrite orb_false_r in Hs. apply startswith_inv in Hs as [rest ->].
      exists [], rest. reflexivity.
    + apply orb_prop in Hs as [Hs|Hs].
      * apply startswith_inv in Hs as [rest ->]. exists [], rest. reflexivity.
      * destruct (IH Hs) as (pre & post & ->). exists (c :: pre), post. reflexivity.
  - intros (pre & post & ->). induction pre as [|c pre IH]; simpl.
    + rewrite str_in_unfold, startswith_app. reflexivity.
    + rewrite IH. apply orb_true_r.
Qed.

Section TextLemmas.
Context {U : Unicode}.

Lemma occurs_in_app_l (v pre text : str) :
  occurs_in v text -> occurs_in v (pre ++ text).
Proof.
  intros (a & b & ->). exists (pre ++ a), b. rewrite <- app_assoc. reflexivity.
Qed.

Lemma lower_from_ascii (before mid post : str) :
  Forall (fun c => is_ascii c = true) mid ->
  lower_from before (mid ++ post)
  = List.map ascii_lower mid ++ lower_from (rev mid ++ before) post.
Proof.
  intros Hmid. revert before.
  induction Hmid as [|c mid Hc _ IH]; intros before; simpl; [reflexivity|].
  rewrite Hc, IH. simpl. rewrite <- app_assoc. reflexivity.
Qed.

(** Lower-casing keeps an ASCII stretch of the text in place, lower-cased. *)
Lemma lower_keeps_ascii (pre mid post : str) :
  Forall (fun c => is_ascii c = true) mid ->
  occurs_in (List.map ascii_lower mid) (lower (pre ++ mid ++ post)).
Proof.
  intros Hmid. unfold lower. generalize (@nil N) as before.
  induction pre as [|c pre IH]; intros before; simpl.
  - rewrite lower_from_ascii by assumption. exists [], (lower_from (rev mid ++ before) post).
    reflexivity.
  - apply occurs_in_app_l, IH.
Qed.

Lemma spells_lower (v w : str) :
  spells v w -> Forall (fun c => is_ascii c = true) v /\ List.map ascii_lower v = w.
Proof.
  induction 1 as [|a b v w [Ha Hab] _ [IH1 IH2]]; simpl; [split; constructor|].
  split; [constructor; assumption|]. rewrite Hab, IH2. reflexivity.
Qed.

(** A text in which the word occurs in some letter case has the word in its
    lower-cased form. *)
Lemma str_in_lower (v w text : str) :
  spells v w -> occurs_in v text -> str_in w (lower text) = true.
Proof.
  intros Hv (pre & post & ->). apply spells_lower in Hv as [Hascii <-].
  apply str_in_occurs, lower_keeps_ascii, Hascii.
Qed.

End TextLemmas.

(* ===================================================================== *)
(** ** Lemmas on the rows of the table *)
(* ===================================================================== *)

Section RowLemmas.
Context {U : Unicode}.

Lemma cell_text_ok (cells : list node) (idx : nat) :
  cell_text cells idx = Ok (text_at cells idx).
Proof.
  unfold cell_text, text_at, py_index.
  destruct (idx <? length cells)%nat eqn:E.
  - apply Nat.ltb_lt in E. destruct (nth_error cells idx) eqn:Hn; [reflexivity|].
    apply nth_error_None in Hn. lia.
  - apply Nat.ltb_ge in E. apply nth_error_None in E. rewrite E. reflexivity.
Qed.

Lemma stock_and_ticker_total (col_map : gmap string nat) (cells : list node) :
  exists st, stock_and_ticker col_map cells = Ok st.
Proof.
  unfold stock_and_ticker, py_index.
  destruct (_ <? length cells)%nat eqn:E; simpl.
  - apply Nat.ltb_lt in E.
    destruct (nth_error cells _) as [stock_cell|] eqn:Hn;
      [|apply nth_error_None in Hn; lia].
    simpl. destruct (find _ stock_cell) as [stock_link|]; simpl.
    + destruct (search true sym_re _) as [m|]; simpl.
      * destruct (falsy (upper (group1 m))); [|eauto].
        destruct (search false dash_re _); eauto.
      * destruct (search false dash_re _); eauto.
    + destruct (search false dash_re _); eauto.
  - eauto.
Qed.

(** The body of the row loop, in closed form. *)
Lemma parse_row_eq (col_map : gmap string nat) (mgr : str) (row : node) :
  exists stock_text ticker,
    stock_and_ticker col_map (row_cells row) = Ok (stock_text, ticker) /\
    parse_row col_map mgr row
    = Ok (if (length (row_cells row) <? 3)%nat then None
          else if negb (is_buy_or_add (activity_of col_map row)) then None
          else Some {| Manager := mgr;
                       Stock := strip stock_text;
                       Ticker := ticker;
                       Recent_Activity := activity_of col_map row;
                       Portfolio_pct :=
                         text_at (row_cells row) (col_get col_map "portfolio_pct"%string 2);
                       Reported_Price :=
                         text_at (row_cells row) (col_get col_map "price"%string 5) |}).
Proof.
  destruct (stock_and_ticker_total col_map (row_cells row)) as [[stock_text ticker] Hst].
  exists stock_text, ticker. split; [exact Hst|].
  unfold parse_row, activity_of. fold (row_cells row).
  destruct (length (row_cells row) <? 3)%nat; [reflexivity|].
  rewrite Hst. simpl. rewrite !cell_text_ok. simpl.
  destruct (is_buy_or_add _); reflexivity.
Qed.

Lemma parse_row_total (col_map : gmap string nat) (mgr : str) (row : node) :
  parse_row col_map mgr row = Ok (row_record col_map mgr row).
Proof.
  unfold row_record.
  destruct (parse_row_eq col_map mgr row) as (s & t & _ & ->). reflexivity.
Qed.

Lemma row_record_short (col_map : gmap string nat) (mgr : str) (row : node) :
  (length (row_cells row) < 3)%nat -> row_record col_map mgr row = None.
Proof.
  intros Hlen. unfold row_record.
  destruct (parse_row_eq col_map mgr row) as (s & t & _ & ->).
  apply Nat.ltb_lt in Hlen. rewrite Hlen. reflexivity.
Qed.

Lemma row_record_filtered (col_map : gmap string nat) (mgr : str) (row : node) :
  is_buy_or_add (activity_of col_map row) = false ->
  row_record col_map mgr row = None.
Proof.
  intros Hact. unfold row_record.
  destruct (parse_row_eq col_map mgr row) as (s & t & _ & ->).
  rewrite Hact. simpl. destruct (_ <? 3)%nat; reflexivity.
Qed.

Lemma row_record_kept (col_map : gmap string nat) (mgr : str) (row : node) :
  (3 <= length (row_cells row))%nat ->
  is_buy_or_add (activity_of col_map row) = true ->
  exists r, row_record col_map mgr row = Some r /\
            Manager r = mgr /\
            Recent_Activity r = activity_of col_map row.
Proof.
  intros Hlen Hact. unfold row_record.
  destruct (parse_row_eq col_map mgr row) as (s & t & _ & ->).
  apply Nat.ltb_ge in Hlen. rewrite Hlen, Hact. simpl. eauto.
Qed.

Lemma row_record_inv (col_map : gmap string nat) (mgr : str) (row : node) r :
  row_record col_map mgr row = Some r ->
  (3 <= length (row_cells row))%nat /\
  is_buy_or_add (Recent_Activity r) = true /\
  Recent_Activity r = activity_of col_map row /\
  Manager r = mgr /\
  (exists stock_text, stock_and_ticker col_map (row_cells row) = Ok (stock_text, Ticker r)).
Proof.
  unfold row_record.
  destruct (parse_row_eq col_map mgr row) as (s & t & Hst & ->).
  destruct (_ <? 3)%nat eqn:Hlen; [discriminate|].
  destruct (is_buy_or_add _) eqn:Hact; [|discriminate]. simpl.
  intros [= <-]. simpl. apply Nat.ltb_ge in Hlen. eauto 10.
Qed.

(** The loop over the rows appends what each row contributes, in order. *)
Lemma rows_loop_eq (col_map : gmap string nat) (mgr : str)
    (rows : list node) (results : list HoldingRecord) :
  rows_loop col_map mgr rows results
  = Ok (results ++ omap (row_record col_map mgr) rows).
Proof.
  revert results. induction rows as [|row rows IH]; intros results; simpl.
  - rewrite app_nil_r. reflexivity.
  - rewrite parse_row_total. simpl. rewrite IH.
    destruct (row_record col_map mgr row); [|reflexivity].
    rewrite <- app_assoc. reflexivity.
Qed.

(** [parse_holdings] in closed form: the rows after the first, each through
    [row_record], under the column map of the first. *)
Lemma parse_holdings_eq (soup : node) (mgr : str) :
  parse_holdings soup mgr
  = Ok match locate_table soup with
       | None => []
       | Some table =>
           match find_all is_tr table with
           | [] => []
           | header_row :: rows =>
               omap (row_record (build_col_map (header_texts header_row)) mgr) rows
           end
       end.
Proof.
  unfold parse_holdings, find.
  destruct (locate_table soup) as [table|]; [|reflexivity].
  destruct (find_all is_tr table) as [|header_row rows]; [reflexivity|].
  simpl. apply rows_loop_eq.
Qed.

End RowLemmas.

(* ===================================================================== *)
(** ** The matcher finds only what the pattern describes *)
(* ===================================================================== *)

Section MatcherSound.
Context {U : Unicode}.

Lemma after_nil (prev : option char) : after prev [] = prev.
Proof. reflexivity. Qed.

Lemma after_app (prev : option char) (w1 w2 : str) :
  after (after prev w1) w2 = after prev (w1 ++ w2).
Proof.
  unfold after. destruct w2 as [|c w2 _] using rev_ind.
  - rewrite app_nil_r. reflexivity.
  - rewrite app_assoc, !last_snoc. reflexivity.
Qed.

Lemma firstn_consumed (w rest : str) :
  firstn (length (w ++ rest) - length rest) (w ++ rest) = w.
Proof.
  rewrite length_app, Nat.add_sub.
  rewrite firstn_app, Nat.sub_diag, firstn_all. simpl. apply app_nil_r.
Qed.

(** Soundness of the repeat loop, given soundness of its body. *)
Lemma rep_loop_sound {A} (ic : bool) (r : regex) (k : kont) (a : A) :
  (forall prev s g (k' : kont) (a' : A),
     rmatch ic r prev s g k' = Some a' ->
     exists w rest g', s = w ++ rest /\ Matches ic r prev w rest g g' /\
                       k' (after prev w) rest g' = Some a') ->
  forall fuel lo hi prev s g,
    rep_loop (fun p t c k' => rmatch ic r p t c k') fuel lo hi prev s g k = Some a ->
    exists w rest g', s = w ++ rest /\ Matches ic (Rep lo hi r) prev w rest g g' /\
                      k (after prev w) rest g' = Some a.
Proof.
  intros IHr.
  assert (Hstop : forall lo hi prev s g,
             match lo with O => k prev s g | S _ => None end = Some a ->
             exists w rest g', s = w ++ rest /\
                               Matches ic (Rep lo hi r) prev w rest g g' /\
                               k (after prev w) rest g' = Some a).
  { intros [|lo] hi prev s g Hk; [|discriminate].
    exists [], s, g. repeat split; [constructor | exact Hk]. }
  induction fuel as [|fuel IHf]; intros lo hi prev s g Hrun; simpl in Hrun.
  - apply Hstop. exact Hrun.
  - assert (Hhi : hi = Some O \/ hi <> Some O).
    { destruct hi as [[|h]|]; [left; reflexivity | right; discriminate..]. }
    destruct Hhi as [-> | Hhi]; [apply Hstop; exact Hrun|].
    match type of Hrun with
    | context [rmatch ic r prev s g ?k'] =>
        destruct (rmatch ic r prev s g k') as [a'|] eqn:Hbody
    end.
    + assert (a' = a) as ->.
      { destruct hi as [[|h]|]; congruence. }
      apply IHr in Hbody as (w1 & rest1 & g1 & -> & Hm1 & Hk1).
      destruct (length rest1 <? length (w1 ++ rest1))%nat eqn:Hlt; [|discriminate].
      apply Nat.ltb_lt in Hlt.
      apply IHf in Hk1 as (w2 & rest & g2 & -> & Hm2 & Hk2).
      exists (w1 ++ w2), rest, g2. rewrite <- app_assoc. split; [reflexivity|].
      split; [|rewrite <- after_app; exact Hk2].
      eapply M_RepStep; eauto.
      intros ->. simpl in Hlt. lia.
    + apply Hstop. destruct hi as [[|h]|]; [congruence | exact Hrun..].
Qed.

(** Soundness of the matcher: whatever it hands to its continuation is a
    reading of the pattern. *)
Lemma rmatch_sound {A} (ic : bool) (r : regex) :
  forall prev s g (k : kont) (a : A),
    rmatch ic r prev s g k = Some a ->
    exists w rest g', s = w ++ rest /\ Matches ic r prev w rest g g' /\
                      k (after prev w) rest g' = Some a.
Proof.
  induction r as [ | c | items | | | | r1 IH1 r2 IH2 | r1 IH1 r2 IH2 | lo hi r IH | r IH ];
    intros prev s g k a Hrun; simpl in Hrun.
  - exists [], s, g. repeat split; [constructor | exact Hrun].
  - destruct s as [|x s]; [discriminate|].
    destruct (lit_match ic c x) eqn:E; [|discriminate].
    exists [x], s, g. repeat split; [constructor; exact E | exact Hrun].
  - destruct s as [|x s]; [discriminate|].
    destruct (set_match ic items x) eqn:E; [|discriminate].
    exists [x], s, g. repeat split; [constructor; exact E | exact Hrun].
  - destruct s as [|x s]; [discriminate|].
    destruct (is_space x) eqn:E; [|discriminate].
    exists [x], s, g. repeat split; [constructor; exact E | exact Hrun].
  - destruct s as [|x s]; [discriminate|].
    destruct (x =? 10) eqn:E; [discriminate|].
    exists [x], s, g. repeat split; [constructor; exact E | exact Hrun].
  - destruct (xorb _ _) eqn:E; [|discriminate].
    exists [], s, g. repeat split; [constructor; exact E | exact Hrun].
  - apply IH1 in Hrun as (w1 & rest1 & g1 & -> & Hm1 & Hk1).
    apply IH2 in Hk1 as (w2 & rest & g2 & -> & Hm2 & Hk2).
    exists (w1 ++ w2), rest, g2. rewrite <- app_assoc. split; [reflexivity|].
    split; [econstructor; eauto | rewrite <- after_app; exact Hk2].
  - destruct (rmatch ic r1 prev s g k) as [a'|] eqn:E.
    + injection Hrun as ->. apply IH1 in E as (w & rest & g' & -> & Hm & Hk).
      exists w, rest, g'. repeat split; [apply M_AltL; exact Hm | exact Hk].
    + apply IH2 in Hrun as (w & rest & g' & -> & Hm & Hk).
      exists w, rest, g'. repeat split; [apply M_AltR; exact Hm | exact Hk].
  - eapply rep_loop_sound; [exact IH | exact Hrun].
  - apply IH in Hrun as (w & rest & g' & -> & Hm & Hk).
    rewrite firstn_consumed in Hk.
    exists w, rest, (Some w). repeat split; [econstructor; exact Hm | exact Hk].
Qed.

(** A successful search found a reading of the pattern somewhere in the
    subject, and reports its group. *)
Lemma search_sound (ic : bool) (r : regex) (s : str) (m : option str) :
  search ic r s = Some m ->
  exists pre w rest prev, s = pre ++ w ++ rest /\ Matches ic r prev w rest None m.
Proof.
  unfold search. generalize (@None N) as prev.
  induction s as [|x s IH]; intros prev Hs; simpl in Hs.
  - destruct (rmatch ic r prev [] None _) as [g|] eqn:E; [|discriminate].
    injection Hs as ->. apply rmatch_sound in E as (w & rest & g' & Heq & Hm & [= ->]).
    exists [], w, rest, prev. split; [exact Heq | exact Hm].
  - destruct (rmatch ic r prev (x :: s) None _) as [g|] eqn:E.
    + injection Hs as ->. apply rmatch_sound in E as (w & rest & g' & Heq & Hm & [= ->]).
      exists [], w, rest, prev. split; [exact Heq | exact Hm].
    + apply IH in Hs as (pre & w & rest & prev' & -> & Hm).
      exists (x :: pre), w, rest, prev'. split; [reflexivity | exact Hm].
Qed.

End MatcherSound.

(* ===================================================================== *)
(** ** What the two ticker patterns capture *)
(* ===================================================================== *)

Section TickerPatterns.
Context {U : Unicode}.

Lemma matches_seq_inv ic r1 r2 prev w rest g g' :
  Matches ic (Seq r1 r2) prev w rest g g' ->
  exists w1 w2 g1, w = w1 ++ w2 /\
    Matches ic r1 prev w1 (w2 ++ rest) g g1 /\
    Matches ic r2 (after prev w1) w2 rest g1 g'.
Proof. inversion 1; subst; eauto 10. Qed.

Lemma matches_group_inv ic r prev w rest g g' :
  Matches ic (Group r) prev w rest g g' ->
  g' = Some w /\ exists g1, Matches ic r prev w rest g g1.
Proof. inversion 1; subst; eauto. Qed.

Lemma matches_eps_inv ic prev w rest g g' :
  Matches ic Eps prev w rest g g' -> w = [] /\ g' = g.
Proof. inversion 1; subst; eauto. Qed.

Lemma matches_wordb_inv ic prev w rest g g' :
  Matches ic WordB prev w rest g g' -> w = [] /\ g' = g.
Proof. inversion 1; subst; eauto. Qed.

(** A pattern without a group leaves the group as it was. *)
Lemma matches_no_group ic r prev w rest g g' :
  Matches ic r prev w rest g g' -> no_group r = true -> g' = g.
Proof.
  induction 1; simpl; intros Hng; try reflexivity; try discriminate.
  - apply andb_prop in Hng as [H1 H2]. rewrite IHMatches2, IHMatches1; auto.
  - apply andb_prop in Hng as [H1 H2]. auto.
  - apply andb_prop in Hng as [H1 H2]. auto.
  - rewrite IHMatches2, IHMatches1; auto.
Qed.

(** A repeated character set reads only members of the set, within the
    bounds of the repeat. *)
Lemma matches_rep_set ic items lo hi prev w rest g g' :
  Matches ic (Rep lo hi (CharSet items)) prev w rest g g' ->
  Forall (fun x => set_match ic items x = true) w /\
  (lo <= length w)%nat /\
  (forall h, hi = Some h -> (length w <= h)%nat).
Proof.
  remember (Rep lo hi (CharSet items)) as r eqn:Hr.
  intros Hm. revert lo hi Hr.
  induction Hm; intros lo' hi' Hr; try discriminate.
  - injection Hr as <- <- _. split; [constructor|]. split; [reflexivity|].
    intros h _. simpl. lia.
  - injection Hr as -> -> ->. clear IHHm1.
    destruct (IHHm2 _ _ eq_refl) as (Hall & Hlo & Hhi).
    inversion Hm1; subst. simpl.
    split; [constructor; assumption|]. split; [lia|].
    intros h ->. destruct h as [|h]; [congruence|].
    specialize (Hhi h eq_refl). lia.
Qed.

(** Every reading of [sym_re] sets the group, to one or more members of
    [[A-Z.]] as [re.IGNORECASE] understands the set. *)
Lemma sym_re_group prev w rest g m :
  Matches true sym_re prev w rest g m ->
  exists w0 t, w = w0 ++ t /\ m = Some t /\ t <> [] /\
               Forall (fun x => set_match true sym_set x = true) t.
Proof.
  unfold sym_re, seqs. simpl fold_right. intros Hm.
  apply matches_seq_inv in Hm as (w1 & w' & g1 & -> & _ & Hm).
  apply matches_seq_inv in Hm as (w2 & w'' & g2 & -> & _ & Hm).
  apply matches_seq_inv in Hm as (w3 & w4 & g3 & -> & Hg & He).
  apply matches_eps_inv in He as [-> ->].
  apply matches_group_inv in Hg as [-> [g4 Hrep]].
  apply matches_rep_set in Hrep as (Hall & Hlo & _).
  exists (w1 ++ w2), w3. rewrite app_nil_r, <- app_assoc.
  split; [reflexivity|]. split; [reflexivity|]. split; [|exact Hall].
  intros ->. simpl in Hlo. lia.
Qed.

(** Every reading of [dash_re] sets the group, to one to five capitals
    A-Z. *)
Lemma dash_re_group prev w rest g m :
  Matches false dash_re prev w rest g m ->
  exists t, m = Some t /\ (1 <= length t <= 5)%nat /\
            Forall (fun x => is_upper_AZ x = true) t.
Proof.
  unfold dash_re, seqs. simpl fold_right. intros Hm.
  apply matches_seq_inv in Hm as (w1 & w' & g1 & -> & _ & Hm).
  apply matches_seq_inv in Hm as (w2 & w'' & g2 & -> & _ & Hm).
  apply matches_seq_inv in Hm as (w3 & w''' & g3 & -> & Hg & Hm).
  apply matches_seq_inv in Hm as (w4 & w5 & g4 & -> & Hb & He).
  apply matches_eps_inv in He as [-> ->].
  apply matches_wordb_inv in Hb as [-> ->].
  apply matches_group_inv in Hg as [-> [g5 Hrep]].
  apply matches_rep_set in Hrep as (Hall & Hlo & Hhi).
  specialize (Hhi _ eq_refl).
  exists w3. split; [reflexivity|]. split; [lia|].
  eapply Forall_impl; [exact Hall|]. intros x Hx. simpl in Hx.
  rewrite orb_false_r in Hx. exact Hx.
Qed.

Lemma sym_re_group_set (s : str) (m : option str) :
  search true sym_re s = Some m -> is_Some m.
Proof.
  intros Hs. apply search_sound in Hs as (pre & w & rest & prev & _ & Hm).
  apply sym_re_group in Hm as (w0 & t & _ & -> & _). eauto.
Qed.

Lemma dash_re_group_set (s : str) (m : option str) :
  search false dash_re s = Some m -> is_Some m.
Proof.
  intros Hs. apply search_sound in Hs as (pre & w & rest & prev & _ & Hm).
  apply dash_re_group in Hm as (t & -> & _). eauto.
Qed.

(** A property of every ASCII code point can be checked on the 128 of
    them. *)
Lemma ascii_cases (P : N -> bool) :
  forallb P (char_range 0 127) = true ->
  forall x, is_ascii x = true -> P x = true.
Proof.
  intros Hall x Hx. rewrite forallb_forall in Hall. apply Hall.
  unfold char_range. apply in_map_iff. exists (N.to_nat x).
  apply N.ltb_lt in Hx. split; [rewrite N2Nat.id; reflexivity|].
  apply in_seq. change (N.to_nat (127 + 1 - 0)) with 128%nat. lia.
Qed.

(** An ASCII member of [[A-Z.]] under [re.IGNORECASE] is a letter or a
    period, and its upper case is a capital or a period. *)
Lemma sym_set_ascii (x : N) :
  is_ascii x = true -> set_match true sym_set x = true ->
  plain_ticker (upper_char x) = true.
Proof.
  intros Hx Hset. unfold upper_char. rewrite Hx.
  pose proof (ascii_cases
                (fun c => implb (set_match true sym_set c)
                                (plain_ticker [ascii_upper c]))) as Hcases.
  specialize (Hcases ltac:(vm_compute; reflexivity) x Hx).
  cbv beta in Hcases. rewrite Hset in Hcases. exact Hcases.
Qed.

Lemma plain_ticker_app (t1 t2 : str) :
  plain_ticker (t1 ++ t2) = plain_ticker t1 && plain_ticker t2.
Proof. apply forallb_app. Qed.

(** The ticker taken from an ASCII link target is made of capitals A-Z and
    periods. *)
Lemma sym_ticker_plain (href : str) (m : option str) :
  Forall (fun c => is_ascii c = true) href ->
  search true sym_re href = Some m ->
  plain_ticker (upper (group1 m)) = true.
Proof.
  intros Hascii Hs.
  apply search_sound in Hs as (pre & w & rest & prev & -> & Hm).
  apply sym_re_group in Hm as (w0 & t & -> & -> & _ & Hset).
  rewrite !Forall_app in Hascii. destruct Hascii as (_ & (_ & Ht) & _).
  simpl. clear -Ht Hset. induction Hset as [|x t Hx _ IH]; [reflexivity|].
  apply Forall_cons in Ht as [Hax Hat].
  unfold upper. simpl. rewrite plain_ticker_app.
  rewrite sym_set_ascii by assumption. exact (IH Hat).
Qed.

(** The ticker recovered from the stock text is one to five capitals A-Z. *)
Lemma dash_ticker_plain (stock_text : str) (m : option str) :
  search false dash_re stock_text = Some m ->
  plain_ticker (group1 m) = true /\ (1 <= length (group1 m) <= 5)%nat.
Proof.
  intros Hs. apply search_sound in Hs as (pre & w & rest & prev & _ & Hm).
  apply dash_re_group in Hm as (t & -> & Hlen & Hcaps).
  split; [|exact Hlen]. simpl. apply forallb_forall. intros x Hx.
  rewrite Forall_forall in Hcaps. rewrite Hcaps; [reflexivity|].
  apply list_elem_of_In. exact Hx.
Qed.

(** For rows whose stock links have ASCII targets, the ticker is empty or
    made of capitals A-Z and periods only. *)
Lemma ticker_plain_on_ascii_links (col_map : gmap string nat) (cells : list node)
    (stock_text ticker : str) :
  (forall cell link,
     cell ∈ cells -> find (tag_named [cps "a"]) cell = Some link ->
     Forall (fun c => is_ascii c = true) (get link (cps "href") [])) ->
  stock_and_ticker col_map cells = Ok (stock_text, ticker) ->
  plain_ticker ticker = true.
Proof.
  intros Hlinks. unfold stock_and_ticker, py_index.
  destruct (_ <? length cells)%nat eqn:E; simpl.
  - destruct (nth_error cells _) as [stock_cell|] eqn:Hn; [|discriminate].
    assert (Hcell : stock_cell ∈ cells).
    { apply list_elem_of_In. eapply nth_error_In. exact Hn. }
    simpl. destruct (find _ stock_cell) as [stock_link|] eqn:Hlink; simpl.
    + destruct (search true sym_re _) as [m|] eqn:Hsym; simpl.
      * pose proof (sym_ticker_plain _ _ (Hlinks _ _ Hcell Hlink) Hsym) as Hplain.
        destruct (falsy (upper (group1 m))); [|intros [= _ <-]; exact Hplain].
        destruct (search false dash_re _) eqn:Hdash; intros [= _ <-];
          [apply (dash_ticker_plain _ _ Hdash) | exact Hplain].
      * destruct (search false dash_re _) eqn:Hdash; intros [= _ <-];
          [apply (dash_ticker_plain _ _ Hdash) | reflexivity].
    + destruct (search false dash_re _) eqn:Hdash; intros [= _ <-];
        [apply (dash_ticker_plain _ _ Hdash) | reflexivity].
  - intros [= _ <-]. reflexivity.
Qed.

End TickerPatterns.

(* ===================================================================== *)
(** ** The Table Extractor *)
(* ===================================================================== *)

Section TableExtractor.
Context {U : Unicode}.

(** C1.  Every record [parse_holdings] emits has a Recent Activity whose
    lower-cased text contains "buy" or "add"; a row whose activity text
    contains neither gives no record; and a row whose activity text contains
    "Buy" or "Add" in any letter case passes the activity test, so that it
    gives a record as soon as it has its three cells.  In the result of
    [parse_holdings]: a row of the table whose activity text contains
    neither leaves the result as it is without that row; a row of three
    cells or more whose activity text contains "Buy" or "Add" in any letter
    case has its record in the result, with that activity text, between the
    records of the rows before it and those of the rows after it; and the
    records of the result are those the rows after the first give. *)
Theorem C1_activity_filter :
  (forall soup mgr records r,
     parse_holdings soup mgr = Ok records -> r ∈ records ->
     str_in (cps "buy") (lower (Recent_Activity r)) = true
     \/ str_in (cps "add") (lower (Recent_Activity r)) = true)
  /\ (forall col_map mgr row,
        str_in (cps "buy") (lower (activity_of col_map row)) = false ->
        str_in (cps "add") (lower (activity_of col_map row)) = false ->
        parse_row col_map mgr row = Ok None)
  /\ (forall col_map mgr row v,
        spells v (cps "buy") \/ spells v (cps "add") ->
        occurs_in v (activity_of col_map row) ->
        is_buy_or_add (activity_of col_map row) = true
        /\ ((3 <= length (row_cells row))%nat ->
            exists r, parse_row col_map mgr row = Ok (Some r)
                      /\ Recent_Activity r = activity_of col_map row))
  /\ (forall soup mgr table header_row rows1 row rows2,
        locate_table soup = Some table ->
        find_all is_tr table = header_row :: rows1 ++ row :: rows2 ->
        let col_map := build_col_map (header_texts header_row) in
        (str_in (cps "buy") (lower (activity_of col_map row)) = false ->
         str_in (cps "add") (lower (activity_of col_map row)) = false ->
         parse_holdings soup mgr = rows_loop col_map mgr (rows1 ++ rows2) [])
        /\ (forall v,
              spells v (cps "buy") \/ spells v (cps "add") ->
              occurs_in v (activity_of col_map row) ->
              (3 <= length (row_cells row))%nat ->
              exists r before after,
                parse_row col_map mgr row = Ok (Some r)
                /\ Recent_Activity r = activity_of col_map row
                /\ rows_loop col_map mgr rows1 [] = Ok before
                /\ rows_loop col_map mgr rows2 [] = Ok after
                /\ parse_holdings soup mgr = Ok (before ++ r :: after)))
  /\ (forall soup mgr table header_row rows records,
        locate_table soup = Some table ->
        find_all is_tr table = header_row :: rows ->
        parse_holdings soup mgr = Ok records ->
        forall r, r ∈ records <->
                  exists row, row ∈ rows
                              /\ parse_row (build_col_map (header_texts header_row)) mgr row
                                 = Ok (Some r)).
Proof.
  assert (Hpass : forall col_map row v,
            spells v (cps "buy") \/ spells v (cps "add") ->
            occurs_in v (activity_of col_map row) ->
            is_buy_or_add (activity_of col_map row) = true).
  { intros col_map row v Hv Hocc. unfold is_buy_or_add. apply orb_true_iff.
    destruct Hv as [Hv|Hv]; [left|right]; eapply str_in_lower; eauto. }
  split; [|split; [|split; [|split]]].
  4: { intros soup mgr table header_row rows1 row rows2 Htable Hrows col_map.
       rewrite parse_holdings_eq, Htable, Hrows. fold col_map. split.
       - intros Hbuy Hadd. rewrite rows_loop_eq, !omap_app. cbn [omap list_omap].
         rewrite row_record_filtered; [reflexivity|].
         unfold is_buy_or_add. rewrite Hbuy, Hadd. reflexivity.
       - intros v Hv Hocc Hlen.
         destruct (row_record_kept col_map mgr row Hlen (Hpass col_map row v Hv Hocc))
           as (r & Hr & _ & Hra).
         exists r, (omap (row_record col_map mgr) rows1),
                (omap (row_record col_map mgr) rows2).
         rewrite parse_row_total, !rows_loop_eq, Hr, omap_app. cbn [omap list_omap].
         rewrite Hr. repeat split; try reflexivity; exact Hra. }
  4: { intros soup mgr table header_row rows records Htable Hrows Hrun r.
       rewrite parse_holdings_eq, Htable, Hrows in Hrun. injection Hrun as <-.
       rewrite list_elem_of_omap. split.
       - intros (row & Hin & Hr). exists row. rewrite parse_row_total, Hr. auto.
       - intros (row & Hin & Hr). exists row. rewrite parse_row_total in Hr.
         injection Hr as Hr. auto. }
  - intros soup mgr records r Hrun Hr.
    rewrite parse_holdings_eq in Hrun. injection Hrun as <-.
    destruct (locate_table soup) as [table|]; [|inversion Hr].
    destruct (find_all is_tr table) as [|header_row rows]; [inversion Hr|].
    apply list_elem_of_omap in Hr as (row & _ & Hrow).
    apply row_record_inv in Hrow as (_ & Hact & _).
    unfold is_buy_or_add in Hact. apply orb_prop in Hact. exact Hact.
  - intros col_map mgr row Hbuy Hadd.
    rewrite parse_row_total. f_equal. apply row_record_filtered.
    unfold is_buy_or_add. rewrite Hbuy, Hadd. reflexivity.
  - intros col_map mgr row v Hv Hocc.
    pose proof (Hpass col_map row v Hv Hocc) as Hact.
    split; [exact Hact|]. intros Hlen.
    destruct (row_record_kept col_map mgr row Hlen Hact) as (r & Hr & _ & Hra).
    exists r. rewrite parse_row_total, Hr. split; [reflexivity | exact Hra].
Qed.

(** C8.  [parse_holdings] never raises; a row with fewer than three cells
    gives no record, and the loop goes on over the other rows exactly as if
    that row were not there; the first row of the table only supplies the
    column map and is not among the rows the loop turns into records. *)
Theorem C8_short_rows_skipped :
  (forall soup mgr, exists records, parse_holdings soup mgr = Ok records)
  /\ (forall col_map mgr row,
        (length (row_cells row) < 3)%nat -> parse_row col_map mgr row = Ok None)
  /\ (forall col_map mgr rows1 row rows2 results,
        (length (row_cells row) < 3)%nat ->
        rows_loop col_map mgr (rows1 ++ row :: rows2) results
        = rows_loop col_map mgr (rows1 ++ rows2) results)
  /\ (forall soup mgr table header_row rows,
        locate_table soup = Some table ->
        find_all is_tr table = header_row :: rows ->
        parse_holdings soup mgr
        = rows_loop (build_col_map (header_texts header_row)) mgr rows []).
Proof.
  split; [|split; [|split]].
  - intros soup mgr. rewrite parse_holdings_eq. eauto.
  - intros col_map mgr row Hlen.
    rewrite parse_row_total, row_record_short by exact Hlen. reflexivity.
  - intros col_map mgr rows1 row rows2 results Hlen.
    rewrite !rows_loop_eq, !omap_app. simpl.
    rewrite row_record_short by exact Hlen. reflexivity.
  - intros soup mgr table header_row rows Htable Hrows.
    rewrite parse_holdings_eq, rows_loop_eq, Htable, Hrows. reflexivity.
Qed.

(** However the table of the example is marked up, it is the one found. *)
Lemma locate_apple_table (attrs : list (str * str)) :
  locate_table (apple_page attrs) = Some (apple_table attrs).
Proof.
  unfold locate_table, find, find_all.
  change (descendants (apple_page attrs))
    with (apple_table attrs :: descendants (apple_table attrs)).
  assert (Hrest : forall q, List.filter (fun t => is_table t && q t)
                              (descendants (apple_table attrs)) = []).
  { intros q. reflexivity. }
  assert (Htables : List.filter is_table (descendants (apple_table attrs)) = []).
  { reflexivity. }
  cbn [List.filter]. rewrite !Hrest, Htables.
  change (is_table (apple_table attrs)) with true. cbn [andb].
  destruct (has_id _ _); [reflexivity|].
  destruct (has_class _ _); reflexivity.
Qed.

(** C3.  For the table with header row Stock, Recent Activity, Portfolio %,
    Reported Price and the single data row "Apple Inc - AAPL", "Buy",
    "5.2%", "$150.00", [parse_holdings] returns exactly one record, with
    Ticker "AAPL", Portfolio % "5.2%", Stock "Apple Inc - AAPL", Recent
    Activity "Buy" and Reported Price "$150.00", whatever the attributes of
    the table and the name of the manager. *)
Theorem C3_apple_example (attrs : list (str * str)) (mgr : str) :
  parse_holdings (apple_page attrs) mgr = Ok [apple_record mgr].
Proof.
  rewrite parse_holdings_eq, locate_apple_table.
  vm_compute. reflexivity.
Qed.

End TableExtractor.

Lemma C1_activity_filter_witness :
  (@is_buy_or_add plain_data (activity_of apple_columns apple_row) = true
   /\ exists r, @parse_row plain_data apple_columns [] apple_row = Ok (Some r)
                /\ Recent_Activity r = activity_of apple_columns apple_row)
  /\ @parse_holdings plain_data (apple_page []) [] = Ok [apple_record []]
  /\ @parse_holdings plain_data sell_page [] = Ok [apple_record []].
Proof.
  split; [|split].
  - destruct (proj1 (proj2 (proj2 (@C1_activity_filter plain_data)))
                apple_columns [] apple_row (cps "Buy")) as [Hact Hrec].
    + left. repeat constructor.
    + exists [], []. reflexivity.
    + split; [exact Hact|]. apply Hrec. vm_compute. lia.
  - destruct (proj1 (proj2 (proj2 (proj2 (@C1_activity_filter plain_data))))
                (apple_page []) [] (apple_table []) apple_header [] apple_row [])
      as [_ Hkept].
    + vm_compute. reflexivity.
    + vm_compute. reflexivity.
    + destruct (Hkept (cps "Buy")) as (r & before & after & Hr & _ & Hb & Ha & ->).
      * left. repeat constructor.
      * exists [], []. reflexivity.
      * vm_compute. lia.
      * vm_compute in Hr, Hb, Ha. injection Hr as <-. injection Hb as <-.
        injection Ha as <-. reflexivity.
  - destruct (proj1 (proj2 (proj2 (proj2 (@C1_activity_filter plain_data))))
                sell_page [] sell_table apple_header [apple_row] sell_row [])
      as [-> _].
    + vm_compute. reflexivity.
    + vm_compute. reflexivity.
    + vm_compute. reflexivity.
    + vm_compute. reflexivity.
    + vm_compute. reflexivity.
Defined.

Lemma C8_short_rows_skipped_witness :
  @parse_row plain_data apple_columns [] short_row = Ok None.
Proof.
  apply (proj1 (proj2 (@C8_short_rows_skipped plain_data))).
  vm_compute. lia.
Defined.

(* ===================================================================== *)
(** ** The column map *)
(* ===================================================================== *)

Section ColumnMap.
Local Open Scope string_scope.

(** C6, as the code has it.  A header changes the price column only if its
    lower-cased text contains "price" or "reported" and none of the keywords
    tested before (no "stock", no "activity", not both "portfolio" and "%");
    such a header containing both "reported" and "price" takes the price
    column whatever was assigned before; and a header without "reported"
    never changes a price column that is already assigned. *)
Theorem C6_price_column (col_map : gmap string nat) (i : nat) (h : str) :
  (map_column col_map i h !! "price" <> col_map !! "price" ->
   (str_in (cps "price") h = true \/ str_in (cps "reported") h = true)
   /\ str_in (cps "stock") h = false
   /\ str_in (cps "activity") h = false
   /\ str_in (cps "portfolio") h && str_in (cps "%") h = false)
  /\ (str_in (cps "reported") h = true ->
      str_in (cps "price") h = true ->
      str_in (cps "stock") h = false ->
      str_in (cps "activity") h = false ->
      str_in (cps "portfolio") h && str_in (cps "%") h = false ->
      map_column col_map i h !! "price" = Some i)
  /\ (forall j, col_map !! "price" = Some j ->
      str_in (cps "reported") h = false ->
      map_column col_map i h !! "price" = Some j).
Proof.
  unfold map_column. split; [|split].
  - intros Hchg.
    destruct (str_in (cps "stock") h);
      [rewrite lookup_insert_ne in Hchg by discriminate; congruence|].
    destruct (str_in (cps "activity") h);
      [rewrite lookup_insert_ne in Hchg by discriminate; congruence|].
    destruct (str_in (cps "portfolio") h && str_in (cps "%") h);
      [rewrite lookup_insert_ne in Hchg by discriminate; congruence|].
    destruct (str_in (cps "reported") h); [auto|].
    destruct (str_in (cps "price") h); [auto|].
    simpl in Hchg. congruence.
  - intros -> -> -> -> ->. simpl. apply lookup_insert_eq.
  - intros j Hj ->.
    destruct (str_in (cps "stock") h);
      [rewrite lookup_insert_ne by discriminate; exact Hj|].
    destruct (str_in (cps "activity") h);
      [rewrite lookup_insert_ne by discriminate; exact Hj|].
    destruct (str_in (cps "portfolio") h && str_in (cps "%") h);
      [rewrite lookup_insert_ne by discriminate; exact Hj|].
    rewrite andb_false_r. simpl.
    rewrite bool_decide_eq_true_2 by (rewrite Hj; eauto).
    rewrite andb_false_r. exact Hj.
Qed.

Lemma C6_price_column_witness :
  map_column {[ "price" := 0%nat ]} 1 (cps "reported price") !! "price" = Some 1%nat.
Proof.
  apply (proj1 (proj2 (C6_price_column {[ "price" := 0%nat ]} 1 (cps "reported price"))));
    reflexivity.
Defined.

(** C6 as stated fails twice.  A header that says "reported" without
    "price" is mapped to the price field; and a header with both "reported"
    and "price" that also says "stock" goes to the stock field and leaves
    the generic price column in place. *)
Lemma C6_counterexample :
  str_in (cps "price") (cps "reported value") = false
  /\ build_col_map [cps "reported value"] !! "price" = Some 0%nat
  /\ build_col_map [cps "price"; cps "stock reported price"] !! "price" = Some 0%nat.
Proof. vm_compute. auto. Qed.

End ColumnMap.

(* ===================================================================== *)
(** ** The Period Filter *)
(* ===================================================================== *)

Section PeriodFilter.
Context {U : Unicode}.

Lemma search_from_unfold ic r prev s :
  search_from ic r prev s
  = match rmatch ic r prev s None (fun _ _ g => Some g) with
    | Some g => Some g
    | None => match s with
              | [] => None
              | x :: s' => search_from ic r (Some x) s'
              end
    end.
Proof. destruct s; reflexivity. Qed.

(** If the pattern reads [w] wherever [w] stands, a search in a text that
    contains [w] succeeds (at [w] or earlier). *)
Lemma search_found ic r (w text : str) :
  (forall prev post, is_Some (rmatch ic r prev (w ++ post) None (fun _ _ g => Some g))) ->
  occurs_in w text -> is_Some (search ic r text).
Proof.
  intros Hw (pre & post & ->). unfold search. generalize (@None N) as prev.
  induction pre as [|x pre IH]; intros prev; rewrite search_from_unfold.
  - rewrite app_nil_l. destruct (Hw prev post) as [g ->]. eauto.
  - rewrite <- app_comm_cons.
    destruct (rmatch ic r prev _ None _); [eauto | apply IH].
Qed.

(** Runs the matcher on a text with an unknown tail: the only tests that
    do not compute are the progress tests of the repeats, which compare the
    length of the tail with itself plus a constant. *)
Ltac run_matcher :=
  vm_compute;
  repeat match goal with
         | |- context [if ?b then _ else _] =>
             replace b with true by (symmetry; apply Nat.leb_le; lia);
             vm_compute
         end.

Lemma is_q4_2025_by (soup : node) (pattern : regex) :
  pattern ∈ patterns ->
  is_Some (search true pattern (page_text soup)) ->
  is_q4_2025 soup = true.
Proof.
  intros Hin Hs. unfold is_q4_2025. apply existsb_exists.
  exists pattern. split; [apply list_elem_of_In; exact Hin|].
  apply bool_decide_eq_true_2. exact Hs.
Qed.

(** C2.  [is_q4_2025] is true of every page whose text contains "Q4 2025",
    "31 Dec 2025", "December 31, 2025", "12/31/2025" or "2025-12-31", and
    false of a page whose text is just "Q3 2025" or just "12/31/2024". *)
Theorem C2_period_filter :
  (forall soup v,
     v ∈ [cps "Q4 2025"; cps "31 Dec 2025"; cps "December 31, 2025";
          cps "12/31/2025"; cps "2025-12-31"] ->
     occurs_in v (page_text soup) ->
     is_q4_2025 soup = true)
  /\ (forall soup,
        page_text soup = cps "Q3 2025" \/ page_text soup = cps "12/31/2024" ->
        is_q4_2025 soup = false).
Proof.
  split.
  - intros soup v Hv Hocc.
    repeat (apply elem_of_cons in Hv as [-> | Hv]); [..|inversion Hv].
    + apply (is_q4_2025_by soup (nth 0 patterns Eps)); [set_solver|].
      eapply search_found; [|exact Hocc]. intros prev post. run_matcher. eauto.
    + apply (is_q4_2025_by soup (nth 1 patterns Eps)); [set_solver|].
      eapply search_found; [|exact Hocc]. intros prev post. run_matcher. eauto.
    + apply (is_q4_2025_by soup (nth 2 patterns Eps)); [set_solver|].
      eapply search_found; [|exact Hocc]. intros prev post. run_matcher. eauto.
    + apply (is_q4_2025_by soup (nth 3 patterns Eps)); [set_solver|].
      eapply search_found; [|exact Hocc]. intros prev post. run_matcher. eauto.
    + apply (is_q4_2025_by soup (nth 4 patterns Eps)); [set_solver|].
      eapply search_found; [|exact Hocc]. intros prev post. run_matcher. eauto.
  - intros soup [Ht|Ht]; unfold is_q4_2025; rewrite Ht; vm_compute; reflexivity.
Qed.

End PeriodFilter.

Lemma C2_period_filter_witness :
  @is_q4_2025 plain_data (document [cell "p" "Portfolio as of 31 Dec 2025"]) = true
  /\ @is_q4_2025 plain_data (document [cell "p" "Q3 2025"]) = false.
Proof.
  split.
  - apply (proj1 (@C2_period_filter plain_data) _ (cps "31 Dec 2025")).
    + set_solver.
    + exists (cps "Portfolio as of "), []. reflexivity.
  - apply (proj2 (@C2_period_filter plain_data)). left. reflexivity.
Defined.

(* ===================================================================== *)
(** ** The Index Collector *)
(* ===================================================================== *)

Section IndexCollector.

(** Lines 60-66 keep the links that have a name, in document order. *)
Lemma manager_entries_eq (soup : node) :
  manager_entries soup = entry_of <$> List.filter named_anchor (manager_anchors soup).
Proof.
  unfold manager_entries. induction (manager_anchors soup) as [|link links IH]; simpl;
    [reflexivity|].
  rewrite IH. unfold named_anchor at 2.
  destruct (falsy (get link (cps "href") [])); simpl; [reflexivity|].
  destruct (falsy (get_text [] link)); reflexivity.
Qed.

(** The loop with [seen] and [unique], from any state. *)
Lemma dedup_loop (ms : list ManagerRef) (seen : gset (list N)) (unique : list ManagerRef) :
  fold_left dedup_step ms (seen, unique)
  = (seen ∪ list_to_set (url <$> ms),
     unique ++ filter (fun m => url m ∉ seen) (spec_first_seen ms)).
Proof.
  revert seen unique. induction ms as [|m ms IH]; intros seen unique; simpl.
  - rewrite app_nil_r. f_equal. set_solver.
  - case_bool_decide as Hseen; rewrite IH.
    + f_equal; [set_solver|]. f_equal.
      rewrite filter_cons_False by (intros Hn; apply Hn, Hseen).
      rewrite list_filter_filter_l; [reflexivity|].
      intros m' Hm' Heq. apply Hm'. rewrite Heq. exact Hseen.
    + f_equal; [set_solver|].
      rewrite filter_cons_True by exact Hseen.
      rewrite <- app_assoc. simpl. do 2 f_equal.
      rewrite list_filter_filter. apply list_filter_iff.
      intros m'. set_solver.
Qed.

Lemma dedup_eq (ms : list ManagerRef) : dedup ms = spec_first_seen ms.
Proof.
  unfold dedup. rewrite dedup_loop. simpl.
  induction (spec_first_seen ms) as [|m l IH]; [reflexivity|].
  rewrite filter_cons_True by set_solver. rewrite IH. reflexivity.
Qed.

Lemma spec_first_seen_urls (ms : list ManagerRef) (u : list N) :
  u ∈ url <$> spec_first_seen ms <-> u ∈ url <$> ms.
Proof.
  induction ms as [|m ms IH]; [reflexivity|]. cbn [spec_first_seen].
  rewrite !fmap_cons, !elem_of_cons, <- IH. split.
  - intros [->|Hu]; [left; reflexivity|]. right.
    apply list_elem_of_fmap in Hu as (m' & -> & Hm').
    apply list_elem_of_filter in Hm' as [_ Hm'].
    apply list_elem_of_fmap_2. exact Hm'.
  - intros [->|Hu]; [left; reflexivity|].
    destruct (decide (u = url m)) as [->|Hne]; [left; reflexivity|]. right.
    apply list_elem_of_fmap in Hu as (m' & -> & Hm').
    apply list_elem_of_fmap_2, list_elem_of_filter. split; assumption.
Qed.

Lemma spec_first_seen_NoDup (ms : list ManagerRef) :
  NoDup (url <$> spec_first_seen ms).
Proof.
  induction ms as [|m ms IH]; [constructor|]. cbn [spec_first_seen].
  rewrite fmap_cons. apply NoDup_cons. split.
  - intros Hin. apply list_elem_of_fmap in Hin as (m' & Heq & Hm').
    apply list_elem_of_filter in Hm' as [Hne _]. congruence.
  - eapply sublist_NoDup; [exact IH|].
    apply fmap_sublist, sublist_filter.
Qed.

(** C5, as the code has it.  Of the links that match the detail-link
    pattern, the collector keeps those with a non-empty name; it returns
    one entry per distinct resolved URL among them, in the order in which
    the URLs are first seen, each with the name of the first link that has
    that URL. *)
Theorem C5_first_seen (soup : node) :
  let entries := entry_of <$> List.filter named_anchor (manager_anchors soup) in
  manager_links_of soup = spec_first_seen entries
  /\ length (manager_links_of soup)
     = size (list_to_set (url <$> entries) : gset (list N))
  /\ NoDup (url <$> manager_links_of soup).
Proof.
  intros entries. unfold manager_links_of.
  rewrite manager_entries_eq, dedup_eq. fold entries.
  split; [reflexivity|]. split; [|apply spec_first_seen_NoDup].
  rewrite <- (length_fmap url).
  rewrite <- (size_list_to_set (C := gset (list N))) by apply spec_first_seen_NoDup.
  f_equal. apply set_eq. intros u.
  rewrite !elem_of_list_to_set. apply spec_first_seen_urls.
Qed.

(** C5 as stated fails on a link without text: one link matches the
    pattern and resolves to one URL, and the collector returns nothing. *)
Lemma C5_counterexample :
  length (manager_anchors image_link_page) = 1%nat
  /\ (full_url_of <$> ((fun link => get link (cps "href") []) <$> manager_anchors image_link_page))
     = [cps "https://www.dataroma.com/m/holdings.php?m=BRK"]
  /\ manager_links_of image_link_page = [].
Proof. vm_compute. auto. Qed.

End IndexCollector.

(* ===================================================================== *)
(** ** The Orchestrator *)
(* ===================================================================== *)

Section Orchestrator.
Context {U : Unicode}.

Lemma exports_app (evs1 evs2 : list event) :
  exports (evs1 ++ evs2) = exports evs1 ++ exports evs2.
Proof. apply omap_app. Qed.

Lemma no_sleep_app (evs1 evs2 : list event) :
  no_sleep (evs1 ++ evs2) = no_sleep evs1 ++ no_sleep evs2.
Proof. apply List.filter_app. Qed.

Lemma timeline_app (evs1 evs2 : list event) :
  timeline (evs1 ++ evs2) = timeline evs1 ++ timeline evs2.
Proof. apply List.filter_app. Qed.

Lemma fetch_errors_app (evs1 evs2 : list event) :
  fetch_errors (evs1 ++ evs2) = (fetch_errors evs1 + fetch_errors evs2)%nat.
Proof. unfold fetch_errors. rewrite List.filter_app, length_app. reflexivity. Qed.

Lemma pauses_app (evs1 evs2 : list event) :
  pauses (evs1 ++ evs2) = pauses evs1 ++ pauses evs2.
Proof. apply omap_app. Qed.

Lemma summaries_app (evs1 evs2 : list event) :
  summaries (evs1 ++ evs2) = summaries evs1 ++ summaries evs2.
Proof. apply omap_app. Qed.

(** One pass of the loop, in closed form: it raises exactly what the fetch
    lets out, and otherwise adds the records of the manager and counts it. *)
Lemma visit_eq (web : Web) (delay : Q) (n i : nat) (mgr : ManagerRef) (t : tally) :
  snd (visit web delay n i mgr t)
  = match web (url mgr) with
    | OtherException e => Raise e
    | _ =>
        Ok {| all_records := all_records t ++ entity_records web mgr;
              q4_count := q4_count t + bump (bool_decide (kind_of web mgr = Qualified));
              skip_count := skip_count t + bump (bool_decide (kind_of web mgr = Skipped)) |}
    end
  /\ fetch_errors (fst (visit web delay n i mgr t))
     = bump (bool_decide (kind_of web mgr = Failed))
  /\ timeline (fst (visit web delay n i mgr t)) = [Sleep delay; Request (url mgr)]
  /\ summaries (fst (visit web delay n i mgr t)) = []
  /\ exports (fst (visit web delay n i mgr t)) = [].
Proof.
  unfold visit, fetch_page, kind_of, entity_records.
  destruct (web (url mgr)) as [soup| |e].
  - destruct (is_q4_2025 soup).
    + destruct (parse_holdings soup (name mgr)) as [records|e] eqn:Hp;
        [|rewrite parse_holdings_eq in Hp; discriminate].
      destruct records as [|r records]; simpl;
        destruct (parse_holdings_warns soup); simpl;
        rewrite ?app_nil_r, ?Nat.add_0_r; destruct t; repeat split; reflexivity.
    + simpl. rewrite ?app_nil_r, ?Nat.add_0_r. destruct t. repeat split; reflexivity.
  - simpl. rewrite ?app_nil_r, ?Nat.add_0_r. destruct t. repeat split; reflexivity.
  - simpl. repeat split; reflexivity.
Qed.

(** The whole loop, in closed form. *)
Lemma visit_all_eq (web : Web) (rand : nat -> Q) (n : nat) (managers : list ManagerRef) :
  forall i t,
    snd (visit_all web rand n i managers t)
    = match first_crash web managers with
      | Some e => Raise e
      | None =>
          Ok {| all_records := all_records t ++ flat_map (entity_records web) managers;
                q4_count := q4_count t + count_kind web Qualified managers;
                skip_count := skip_count t + count_kind web Skipped managers |}
      end
    /\ fetch_errors (fst (visit_all web rand n i managers t))
       = count_kind web Failed (reached web managers)
    /\ timeline (fst (visit_all web rand n i managers t))
       = flat_map (pause_then_request rand) (enumerate i (reached web managers))
    /\ summaries (fst (visit_all web rand n i managers t)) = []
    /\ exports (fst (visit_all web rand n i managers t)) = [].
Proof.
  induction managers as [|mgr rest IH]; intros i t.
  - simpl. rewrite app_nil_r. unfold count_kind. simpl. rewrite !Nat.add_0_r.
    destruct t. repeat split; reflexivity.
  - cbn [visit_all first_crash reached].
    destruct (visit_eq web (rand i) n i mgr t) as (Hs & He & Hp & Hsum & Hx).
    destruct (visit web (rand i) n i mgr t) as [out r]. simpl in Hs, He, Hp, Hsum, Hx.
    subst r.
    assert (Hgo : forall t1,
      let r := visit_all web rand n (S i) rest t1 in
      snd (let '(out', r') := r in ((out ++ out')%list, r'))
      = match first_crash web rest with
        | Some e => Raise e
        | None =>
            Ok {| all_records := all_records t1 ++ flat_map (entity_records web) rest;
                  q4_count := q4_count t1 + count_kind web Qualified rest;
                  skip_count := skip_count t1 + count_kind web Skipped rest |}
        end
      /\ fetch_errors (fst (let '(out', r') := r in ((out ++ out')%list, r')))
         = count_kind web Failed (mgr :: reached web rest)
      /\ timeline (fst (let '(out', r') := r in ((out ++ out')%list, r')))
         = flat_map (pause_then_request rand) (enumerate i (mgr :: reached web rest))
      /\ summaries (fst (let '(out', r') := r in ((out ++ out')%list, r'))) = []
      /\ exports (fst (let '(out', r') := r in ((out ++ out')%list, r'))) = []).
    { intros t1 r. subst r.
      destruct (IH (S i) t1) as (Hs' & He' & Hp' & Hsum' & Hx').
      destruct (visit_all web rand n (S i) rest t1) as [out' r'].
      simpl in Hs', He', Hp', Hsum', Hx'. cbn [fst snd].
      rewrite fetch_errors_app, timeline_app, summaries_app, exports_app.
      rewrite He, He', Hp, Hp', Hsum, Hsum', Hx, Hx'.
      unfold count_kind. cbn [List.filter flat_map enumerate].
      repeat split; [exact Hs'|].
      destruct (bool_decide (kind_of web mgr = Failed)); reflexivity. }
    assert (Htally : forall t1 : tally,
      t1 = {| all_records := all_records t ++ entity_records web mgr;
              q4_count := q4_count t + bump (bool_decide (kind_of web mgr = Qualified));
              skip_count := skip_count t + bump (bool_decide (kind_of web mgr = Skipped)) |} ->
      {| all_records := all_records t1 ++ flat_map (entity_records web) rest;
         q4_count := q4_count t1 + count_kind web Qualified rest;
         skip_count := skip_count t1 + count_kind web Skipped rest |}
      = {| all_records := all_records t ++ flat_map (entity_records web) (mgr :: rest);
           q4_count := q4_count t + count_kind web Qualified (mgr :: rest);
           skip_count := skip_count t + count_kind web Skipped (mgr :: rest) |}).
    { intros t1 ->. cbn [all_records q4_count skip_count flat_map].
      unfold count_kind. cbn [List.filter].
      f_equal.
      - rewrite <- app_assoc. reflexivity.
      - destruct (bool_decide (kind_of web mgr = Qualified)); simpl; lia.
      - destruct (bool_decide (kind_of web mgr = Skipped)); simpl; lia. }
    destruct (web (url mgr)) as [soup| |e] eqn:Hw.
    + match goal with |- context [visit_all web rand n (S i) rest ?t1] =>
        destruct (Hgo t1) as (Hs' & Hrest) end.
      split; [|exact Hrest]. rewrite Hs'.
      destruct (first_crash web rest); [reflexivity|].
      f_equal. apply Htally. reflexivity.
    + match goal with |- context [visit_all web rand n (S i) rest ?t1] =>
        destruct (Hgo t1) as (Hs' & Hrest) end.
      split; [|exact Hrest]. rewrite Hs'.
      destruct (first_crash web rest); [reflexivity|].
      f_equal. apply Htally. reflexivity.
    + cbn [fst snd]. rewrite He, Hp, Hsum, Hx. unfold count_kind.
      cbn [List.filter flat_map enumerate pause_then_request fst snd app].
      repeat split.
      destruct (bool_decide (kind_of web mgr = Failed)); reflexivity.
Qed.

(** Every manager ends in exactly one of the four ways. *)
Lemma count_kind_total (web : Web) (managers : list ManagerRef) :
  (count_kind web Qualified managers + count_kind web Skipped managers
   + count_kind web Failed managers + count_kind web Crashed managers
   = length managers)%nat.
Proof.
  unfold count_kind. induction managers as [|mgr rest IH]; [reflexivity|].
  cbn [List.filter length]. destruct (kind_of web mgr); simpl; lia.
Qed.

(** Without an exception out of a fetch the loop gets to every manager. *)
Lemma reached_all (web : Web) (managers : list ManagerRef) :
  first_crash web managers = None ->
  reached web managers = managers /\ count_kind web Crashed managers = 0%nat.
Proof.
  unfold count_kind. induction managers as [|mgr rest IH]; [split; reflexivity|].
  cbn [first_crash reached List.filter].
  destruct (web (url mgr)) as [soup| |e] eqn:Hw; intros Hnone; try discriminate;
    destruct (IH Hnone) as [-> Hc]; (split; [reflexivity|]);
    rewrite bool_decide_eq_false_2; try exact Hc;
    unfold kind_of; rewrite Hw; [destruct (is_q4_2025 soup)|]; discriminate.
Qed.

Lemma first_crash_none (web : Web) (managers : list ManagerRef) :
  (forall mgr e, mgr ∈ managers -> web (url mgr) <> OtherException e) ->
  first_crash web managers = None.
Proof.
  induction managers as [|mgr rest IH]; intros Hall; [reflexivity|].
  cbn [first_crash].
  destruct (web (url mgr)) as [soup| |e] eqn:Hw.
  - apply IH. intros m e Hm. apply Hall. right. exact Hm.
  - apply IH. intros m e Hm. apply Hall. right. exact Hm.
  - exfalso. apply (Hall mgr e); [left | exact Hw].
Qed.

(** The end of a run: the summary first; the file when there are records
    and [to_excel] returns; the exception when it raises. *)
Lemma save_results_cases (writer : Writer) (t : tally) :
  save_results writer t
  = let summary := Summary (q4_count t) (skip_count t) (length (all_records t)) in
    match all_records t with
    | [] => ([summary; NoData; Done], Ok tt)
    | _ :: _ =>
        match writer OUTPUT_FILE "Q4 2025 Buys"%string export_columns
                     (record_values <$> all_records t) with
        | Some e => ([summary], Raise e)
        | None =>
            ([summary;
              ToExcel OUTPUT_FILE "Q4 2025 Buys" export_columns
                      (record_values <$> all_records t);
              Saved OUTPUT_FILE; Done], Ok tt)
        end
    end.
Proof.
  unfold save_results.
  destruct (all_records t) as [|r records]; [reflexivity|].
  change (List.filter _ export_columns) with export_columns.
  assert (Hrows : List.map (List.map snd)
                    (df_rows (df_select export_columns (DataFrame_of (r :: records))))
                  = record_values <$> (r :: records)).
  { cbn [df_select df_rows DataFrame_of]. rewrite !map_map. apply map_ext.
    intros r'. reflexivity. }
  cbv zeta. rewrite Hrows. reflexivity.
Qed.

Lemma save_results_eq (writer : Writer) (t : tally) :
  snd (save_results writer t)
  = match export_error writer (all_records t) with
    | None => Ok tt
    | Some e => Raise e
    end
  /\ exports (fst (save_results writer t)) = written writer (all_records t)
  /\ summaries (fst (save_results writer t))
     = [(q4_count t, skip_count t, length (all_records t))]
  /\ fetch_errors (fst (save_results writer t)) = 0%nat
  /\ timeline (fst (save_results writer t)) = []
  /\ pauses (fst (save_results writer t)) = [].
Proof.
  rewrite save_results_cases. unfold written, export_error, export_of. cbv zeta.
  destruct (all_records t) as [|r records]; [repeat split; reflexivity|].
  destruct (writer OUTPUT_FILE "Q4 2025 Buys"%string export_columns
                   (record_values <$> r :: records)); repeat split; reflexivity.
Qed.

(** A run that got its managers: the listing request, the loop, and, when
    the loop ends without an exception, the end of the run. *)
Lemma main_eq (web : Web) (writer : Writer) (rand : nat -> Q) (soup : node) :
  web MANAGERS_URL = Page soup ->
  manager_links_of soup <> [] ->
  main web writer rand
  = let managers := manager_links_of soup in
    let pre := [Request MANAGERS_URL; FoundManagers (length managers)] in
    match visit_all web rand (length managers) 1 managers no_tally with
    | (out, Raise e) => {| trace := pre ++ out; status := Uncaught e |}
    | (out, Ok t) =>
        {| trace := pre ++ out ++ fst (save_results writer t);
           status := match snd (save_results writer t) with
                     | Ok _ => Completed
                     | Raise e => Uncaught e
                     end |}
    end.
Proof.
  intros Hweb Hms. unfold main, get_manager_links, fetch_page. rewrite Hweb.
  destruct (manager_links_of soup) as [|m ms] eqn:Hlinks; [congruence|].
  cbv zeta. fold no_tally.
  destruct (visit_all web rand (length (m :: ms)) 1 (m :: ms) no_tally) as [out [t|e]];
    [|reflexivity].
  destruct (save_results writer t) as [out' [[]|e]]; reflexivity.
Qed.


Lemma visit_deterministic (web1 web2 : Web) (d1 d2 : Q) (n i : nat)
    (mgr : ManagerRef) (t : tally) :
  (forall u, web1 u = web2 u) ->
  snd (visit web1 d1 n i mgr t) = snd (visit web2 d2 n i mgr t)
  /\ no_sleep (fst (visit web1 d1 n i mgr t)) = no_sleep (fst (visit web2 d2 n i mgr t)).
Proof.
  intros Hweb. unfold visit, fetch_page. rewrite Hweb.
  destruct (web2 (url mgr)) as [soup| |e]; [|split; reflexivity..].
  destruct (negb (is_q4_2025 soup)); [split; reflexivity|].
  destruct (parse_holdings soup (name mgr)) as [[|r records]|e];
    split; reflexivity.
Qed.

Lemma visit_all_deterministic (web1 web2 : Web) (rand1 rand2 : nat -> Q) (n : nat)
    (managers : list ManagerRef) :
  (forall u, web1 u = web2 u) ->
  forall i t,
    snd (visit_all web1 rand1 n i managers t) = snd (visit_all web2 rand2 n i managers t)
    /\ no_sleep (fst (visit_all web1 rand1 n i managers t))
       = no_sleep (fst (visit_all web2 rand2 n i managers t)).
Proof.
  intros Hweb. induction managers as [|mgr rest IH]; intros i t; simpl;
    [split; reflexivity|].
  destruct (visit_deterministic web1 web2 (rand1 i) (rand2 i) n i mgr t Hweb)
    as [Hs Hf].
  destruct (visit web1 (rand1 i) n i mgr t) as [out1 r1].
  destruct (visit web2 (rand2 i) n i mgr t) as [out2 r2].
  simpl in Hs, Hf. subst r2.
  destruct r1 as [t'|e]; [|split; [reflexivity | exact Hf]].
  destruct (IH (S i) t') as [Hs' Hf'].
  destruct (visit_all web1 rand1 n (S i) rest t') as [out1' r1'].
  destruct (visit_all web2 rand2 n (S i) rest t') as [out2' r2'].
  simpl in *. rewrite !no_sleep_app, Hf, Hf'. split; [exact Hs' | reflexivity].
Qed.

(** C9.  Two runs over the same page contents end with the same records,
    in the same order and with the same values, and the same counts,
    whatever the random pauses are; they end in the same way and print and
    write the same things, pauses apart. *)
Theorem C9_deterministic (web1 web2 : Web) (writer : Writer) (rand1 rand2 : nat -> Q) :
  (forall u, web1 u = web2 u) ->
  (forall n i managers t,
     snd (visit_all web1 rand1 n i managers t)
     = snd (visit_all web2 rand2 n i managers t))
  /\ status (main web1 writer rand1) = status (main web2 writer rand2)
  /\ no_sleep (trace (main web1 writer rand1)) = no_sleep (trace (main web2 writer rand2))
  /\ exports (trace (main web1 writer rand1)) = exports (trace (main web2 writer rand2)).
Proof.
  intros Hweb.
  assert (Hmain : status (main web1 writer rand1) = status (main web2 writer rand2)
                  /\ no_sleep (trace (main web1 writer rand1))
                     = no_sleep (trace (main web2 writer rand2))
                  /\ exports (trace (main web1 writer rand1))
                     = exports (trace (main web2 writer rand2))).
  { unfold main, get_manager_links, fetch_page. rewrite Hweb.
    destruct (web2 MANAGERS_URL) as [soup| |e]; [|repeat split..].
    destruct (manager_links_of soup) as [|m ms]; [repeat split|].
    set (t0 := {| all_records := []; q4_count := 0; skip_count := 0 |}).
    destruct (visit_all_deterministic web1 web2 rand1 rand2
                (length (m :: ms)) (m :: ms) Hweb 1 t0) as [Hs Hf].
    pose proof (visit_all_eq web1 rand1 (length (m :: ms)) (m :: ms) 1 t0)
      as (_ & _ & _ & _ & He1).
    pose proof (visit_all_eq web2 rand2 (length (m :: ms)) (m :: ms) 1 t0)
      as (_ & _ & _ & _ & He2).
    destruct (visit_all web1 rand1 (length (m :: ms)) 1 (m :: ms) t0) as [out1 r1].
    destruct (visit_all web2 rand2 (length (m :: ms)) 1 (m :: ms) t0) as [out2 r2].
    simpl in Hs, Hf, He1, He2. subst r2.
    destruct r1 as [t|e]; cbn [trace status].
    - destruct (save_results writer t) as [out' [[]|e]]; cbn [trace status];
        rewrite !no_sleep_app, !exports_app, Hf, He1, He2; repeat split.
    - rewrite !no_sleep_app, !exports_app, Hf, He1, He2. repeat split. }
  split; [|exact Hmain].
  intros n i managers t. apply visit_all_deterministic, Hweb.
Qed.

(** C4, as the code has it.  When the request for the detail page of an
    entity fails with a [requests.RequestException], the pass reports the
    error and leaves the records and both counters as they were, and the
    loop goes on with the next entity; a run that got its listing page with
    a manager on it, and in which no fetch raises anything else, gets to
    its summary, and completes when the export does not raise.  An
    exception of another class raised in the fetch is not caught: it ends
    the pass, the loop and the run. *)
Theorem C4_fetch_failure (web : Web) (writer : Writer) (rand : nat -> Q) :
  (forall delay n i mgr t,
     web (url mgr) = RequestException ->
     visit web delay n i mgr t
     = ([Checking i n (name mgr); Sleep delay; Request (url mgr);
         RequestFailed (url mgr); EntityError],
        Ok t))
  /\ (forall n i mgr rest t,
        web (url mgr) = RequestException ->
        snd (visit_all web rand n i (mgr :: rest) t)
        = snd (visit_all web rand n (S i) rest t))
  /\ (forall soup,
        web MANAGERS_URL = Page soup ->
        manager_links_of soup <> [] ->
        (forall mgr e, mgr ∈ manager_links_of soup -> web (url mgr) <> OtherException e) ->
        (exists t,
           snd (visit_all web rand (length (manager_links_of soup)) 1
                          (manager_links_of soup) no_tally) = Ok t
           /\ Summary (q4_count t) (skip_count t) (length (all_records t))
              ∈ trace (main web writer rand)
           /\ (export_error writer (all_records t) = None ->
               status (main web writer rand) = Completed)))
  /\ (forall delay n i mgr rest t e,
        web (url mgr) = OtherException e ->
        snd (visit web delay n i mgr t) = Raise e
        /\ snd (visit_all web rand n i (mgr :: rest) t) = Raise e)
  /\ (forall soup mgr e,
        web MANAGERS_URL = Page soup ->
        mgr ∈ manager_links_of soup ->
        web (url mgr) = OtherException e ->
        exists e', status (main web writer rand) = Uncaught e'
                   /\ summaries (trace (main web writer rand)) = []).
Proof.
  split; [|split; [|split; [|split]]].
  - intros delay n i mgr t Hfail. unfold visit, fetch_page. rewrite Hfail. reflexivity.
  - intros n i mgr rest t Hfail. cbn [visit_all]. unfold visit, fetch_page. rewrite Hfail.
    destruct (visit_all web rand n (S i) rest t). reflexivity.
  - intros soup Hweb Hms Hnone.
    rewrite (main_eq web writer rand soup Hweb Hms). cbv zeta.
    pose proof (visit_all_eq web rand (length (manager_links_of soup))
                  (manager_links_of soup) 1 no_tally) as (Hs & _).
    rewrite (first_crash_none web _ Hnone) in Hs.
    destruct (visit_all web rand (length (manager_links_of soup)) 1
                        (manager_links_of soup) no_tally) as [out r].
    cbn [snd] in Hs. subst r. eexists. split; [reflexivity|].
    match goal with |- context [save_results writer ?t1] =>
      set (t := t1);
      destruct (save_results_eq writer t) as (Hsnd & _) end.
    cbn [trace status]. split.
    + rewrite !elem_of_app. right. right. unfold save_results.
      destruct (all_records t); [set_solver|].
      match goal with |- context [match ?w with Some _ => _ | None => _ end] =>
        destruct w end; set_solver.
    + intros Hexp. rewrite Hsnd, Hexp. reflexivity.
  - intros delay n i mgr rest t e Hw.
    assert (Hv : snd (visit web delay n i mgr t) = Raise e).
    { unfold visit, fetch_page. rewrite Hw. reflexivity. }
    split; [exact Hv|]. cbn [visit_all].
    assert (Hv' : snd (visit web (rand i) n i mgr t) = Raise e).
    { unfold visit, fetch_page. rewrite Hw. reflexivity. }
    destruct (visit web (rand i) n i mgr t) as [out r]. cbn [snd] in Hv'. subst r.
    reflexivity.
  - intros soup mgr e Hweb Hin Hw.
    assert (Hms : manager_links_of soup <> []).
    { intros Hnil. rewrite Hnil in Hin. inversion Hin. }
    assert (Hcrash : exists e', first_crash web (manager_links_of soup) = Some e').
    { clear -Hin Hw. induction Hin as [mgr rest|mgr m rest Hin IH]; cbn [first_crash].
      - rewrite Hw. eauto.
      - destruct (web (url m)); eauto. }
    destruct Hcrash as [e' Hcrash]. exists e'.
    rewrite (main_eq web writer rand soup Hweb Hms). cbv zeta.
    pose proof (visit_all_eq web rand (length (manager_links_of soup))
                  (manager_links_of soup) 1 no_tally) as (Hs & _ & _ & Hsum & _).
    rewrite Hcrash in Hs.
    destruct (visit_all web rand (length (manager_links_of soup)) 1
                        (manager_links_of soup) no_tally) as [out r].
    cbn [fst snd] in Hs, Hsum. subst r. cbn [trace status].
    split; [reflexivity|]. rewrite summaries_app, Hsum. reflexivity.
Qed.

End Orchestrator.

Lemma C4_fetch_failure_witness :
  @visit plain_data web_detail_down 2%Q 1 1 buffett no_tally
  = ([Checking 1 1 (name buffett); Sleep 2%Q; Request (url buffett);
      RequestFailed (url buffett); EntityError],
     Ok no_tally)
  /\ status (@main plain_data web_detail_down plain_writer two_seconds) = Completed
  /\ snd (@visit_all plain_data web_detail_crash two_seconds 1 1 [buffett] no_tally)
     = Raise (Escaped "ParserRejectedMarkup").
Proof.
  pose proof (@C4_fetch_failure plain_data web_detail_down plain_writer two_seconds)
    as (H1 & _ & H3 & _).
  pose proof (@C4_fetch_failure plain_data web_detail_crash plain_writer two_seconds)
    as (_ & _ & _ & H4 & _).
  split; [|split].
  - apply H1. vm_compute. reflexivity.
  - destruct (H3 one_link_page) as (t & Ht & _ & Hdone).
    + vm_compute. reflexivity.
    + vm_compute. discriminate.
    + intros mgr e Hin. vm_compute in Hin. apply list_elem_of_singleton in Hin as ->.
      vm_compute. discriminate.
    + vm_compute in Ht. injection Ht as <-. apply Hdone. reflexivity.
  - apply (H4 2%Q 1%nat 1%nat buffett [] no_tally (Escaped "ParserRejectedMarkup")).
    vm_compute. reflexivity.
Defined.

(** C4 as stated fails: on a site whose only detail page cannot be fetched,
    the run has one fetch error and its summary reports no skipped entity;
    and on a site whose only detail page makes the fetch raise an exception
    that is not a [requests.RequestException], the run ends with it. *)
Lemma C4_counterexample :
  (fetch_errors (trace (@main plain_data web_detail_down plain_writer two_seconds)) = 1%nat
   /\ reported_skipped (trace (@main plain_data web_detail_down plain_writer two_seconds))
      = Some 0%nat)
  /\ status (@main plain_data web_detail_crash plain_writer two_seconds)
     = Uncaught (Escaped "ParserRejectedMarkup").
Proof. vm_compute. auto. Qed.



Lemma C9_deterministic_witness :
  exports (trace (@main plain_data web_apple plain_writer two_seconds))
  = exports (trace (@main plain_data web_apple plain_writer three_seconds)).
Proof.
  apply (@C9_deterministic plain_data web_apple web_apple plain_writer
           two_seconds three_seconds).
  intros u. reflexivity.
Defined.

(* ===================================================================== *)
(** ** The ticker *)
(* ===================================================================== *)

Section Ticker.
Context {U : Unicode}.

(** C10 fails on the code.  For a stock link whose [sym] parameter is the
    Kelvin sign, which [[A-Z.]] matches under [re.IGNORECASE] and which
    [upper()] leaves as it is, [parse_holdings] emits a record whose ticker
    is that one code point: not empty, and not made of A-Z and periods. *)
Theorem C10_kelvin_ticker (mgr : str) :
  exists r, parse_holdings kelvin_page mgr = Ok [r]
            /\ Ticker r = [0x212A]
            /\ plain_ticker (Ticker r) = false.
Proof.
  eexists. split; [vm_compute; reflexivity|]. split; reflexivity.
Qed.

End Ticker.

(* ===================================================================== *)
(** ** More on the Orchestrator: counts, pauses, exits *)
(* ===================================================================== *)

Section RunProperties.
Context {U : Unicode}.

(** The loop of a run that got its managers, with its result named. *)
Lemma main_loop (web : Web) (writer : Writer) (rand : nat -> Q) (soup : node) :
  web MANAGERS_URL = Page soup ->
  manager_links_of soup <> [] ->
  let managers := manager_links_of soup in
  let pre := [Request MANAGERS_URL; FoundManagers (length managers)] in
  let t := {| all_records := flat_map (entity_records web) managers;
              q4_count := count_kind web Qualified managers;
              skip_count := count_kind web Skipped managers |} in
  exists out,
    fetch_errors out = count_kind web Failed (reached web managers)
    /\ timeline out = flat_map (pause_then_request rand) (enumerate 1 (reached web managers))
    /\ summaries out = []
    /\ exports out = []
    /\ main web writer rand
       = match first_crash web managers with
         | Some e => {| trace := pre ++ out; status := Uncaught e |}
         | None =>
             {| trace := pre ++ out ++ fst (save_results writer t);
                status := match export_error writer (all_records t) with
                          | None => Completed
                          | Some e => Uncaught e
                          end |}
         end.
Proof.
  intros Hweb Hms managers pre t.
  rewrite (main_eq web writer rand soup Hweb Hms). cbv zeta. fold managers.
  destruct (visit_all_eq web rand (length managers) managers 1 no_tally)
    as (Hs & He & Hp & Hsum & Hx).
  destruct (visit_all web rand (length managers) 1 managers no_tally) as [out r].
  cbn [fst snd] in Hs, He, Hp, Hsum, Hx. subst r. exists out.
  repeat (split; [assumption|]).
  destruct (first_crash web managers) as [e|]; [reflexivity|].
  cbn [no_tally all_records q4_count skip_count app Nat.add]. fold t.
  destruct (save_results_eq writer t) as (-> & _).
  destruct (export_error writer (all_records t)); reflexivity.
Qed.

(** X1.  How a run ends.  It exits with code 1 when the request for the
    listing page fails with a [requests.RequestException] or the page names
    no manager, and then there was no pause, no summary and no export.  It
    ends with an uncaught exception when the fetch of the listing page, or
    of the page of a manager, raises one of another class, or when
    [to_excel] raises.  In every other case it completes. *)
Theorem X1_exit_status (web : Web) (writer : Writer) (rand : nat -> Q) :
  status (main web writer rand)
  = match web MANAGERS_URL with
    | RequestException => SysExit 1
    | OtherException e => Uncaught e
    | Page soup =>
        match manager_links_of soup with
        | [] => SysExit 1
        | managers =>
            match first_crash web managers with
            | Some e => Uncaught e
            | None =>
                match export_error writer (flat_map (entity_records web) managers) with
                | Some e => Uncaught e
                | None => Completed
                end
            end
        end
    end
  /\ (forall code, status (main web writer rand) = SysExit code ->
      code = 1%nat
      /\ pauses (trace (main web writer rand)) = []
      /\ summaries (trace (main web writer rand)) = []
      /\ exports (trace (main web writer rand)) = []).
Proof.
  destruct (web MANAGERS_URL) as [soup| |e] eqn:Hweb.
  - destruct (manager_links_of soup) as [|m ms] eqn:Hlinks.
    + assert (Hmain : main web writer rand
                      = {| trace := [Request MANAGERS_URL; FoundManagers 0; FatalNoManagers];
                           status := SysExit 1 |}).
      { unfold main, get_manager_links, fetch_page. rewrite Hweb, Hlinks. reflexivity. }
      rewrite Hmain. cbn [status trace]. split; [reflexivity|].
      intros code [= <-]. repeat split; reflexivity.
    + destruct (main_loop web writer rand soup Hweb) as (out & _ & _ & _ & _ & ->);
        [rewrite Hlinks; discriminate|].
      rewrite Hlinks. cbn [all_records].
      destruct (first_crash web (m :: ms)) as [e|]; cbn [status].
      * split; [reflexivity | discriminate].
      * destruct (export_error writer (flat_map (entity_records web) (m :: ms)));
          (split; [reflexivity | discriminate]).
  - assert (Hmain : main web writer rand
                    = {| trace := [Request MANAGERS_URL; RequestFailed MANAGERS_URL;
                                   FatalNoIndex];
                         status := SysExit 1 |}).
    { unfold main, get_manager_links, fetch_page. rewrite Hweb. reflexivity. }
    rewrite Hmain. cbn [status trace]. split; [reflexivity|].
    intros code [= <-]. repeat split; reflexivity.
  - assert (Hmain : main web writer rand
                    = {| trace := [Request MANAGERS_URL]; status := Uncaught e |}).
    { unfold main, get_manager_links, fetch_page. rewrite Hweb. reflexivity. }
    rewrite Hmain. cbn [status trace]. split; [reflexivity | discriminate].
Qed.

(** X2.  A run that got its managers, and in which no fetch raises an
    exception that is not caught, prints one summary: the number of
    managers whose page was fetched and accepted, the number whose page was
    fetched and rejected by the period filter, and the number of records;
    with the fetch errors the two counts add up to the number of managers.
    When a fetch does raise such an exception the run ends with it and
    prints no summary. *)
Theorem X2_summary_counts (web : Web) (writer : Writer) (rand : nat -> Q) (soup : node) :
  web MANAGERS_URL = Page soup ->
  manager_links_of soup <> [] ->
  let managers := manager_links_of soup in
  let run := main web writer rand in
  (first_crash web managers = None ->
     summaries (trace run)
     = [(count_kind web Qualified managers, count_kind web Skipped managers,
         length (flat_map (entity_records web) managers))]
     /\ fetch_errors (trace run) = count_kind web Failed managers
     /\ (count_kind web Qualified managers + count_kind web Skipped managers
         + fetch_errors (trace run) = length managers)%nat)
  /\ (forall e, first_crash web managers = Some e ->
        summaries (trace run) = [] /\ status run = Uncaught e).
Proof.
  intros Hweb Hms managers run. subst run.
  destruct (main_loop web writer rand soup Hweb Hms) as (out & He & _ & Hsum & _ & ->).
  fold managers in He |- *. split.
  - intros Hnone. rewrite Hnone. cbn [trace].
    destruct (reached_all web managers Hnone) as [Hall Hcrashed].
    rewrite Hall in He.
    match goal with |- context [save_results writer ?t] =>
      destruct (save_results_eq writer t) as (_ & _ & Hsum' & He' & _) end.
    rewrite !summaries_app, !fetch_errors_app, Hsum, Hsum', He, He'.
    cbn [all_records q4_count skip_count app fetch_errors List.filter length summaries
         omap list_omap Nat.add].
    rewrite Nat.add_0_r. repeat split.
    pose proof (count_kind_total web managers). lia.
  - intros e ->. cbn [trace status]. rewrite summaries_app, Hsum. split; reflexivity.
Qed.

Lemma pauses_of_passes (rand : nat -> Q) (managers : list ManagerRef) :
  forall i,
    pauses (flat_map (pause_then_request rand) (enumerate i managers))
    = List.map rand (seq i (length managers)).
Proof.
  induction managers as [|mgr rest IH]; intros i; [reflexivity|].
  cbn [enumerate flat_map length seq List.map]. rewrite pauses_app, IH. reflexivity.
Qed.

Lemma pauses_timeline (evs : list event) : pauses (timeline evs) = pauses evs.
Proof.
  induction evs as [|e evs IH]; [reflexivity|].
  destruct e; cbn [timeline List.filter]; fold (timeline evs);
    cbn [pauses omap list_omap]; fold (pauses evs); fold (pauses (timeline evs));
    rewrite ?IH; reflexivity.
Qed.

(** X3.  In a run that got its managers, the requests and the pauses come
    in this order: the request for the listing page; then, for each manager
    the loop gets to, in the order of the listing, the pause of its pass
    and after it the request for its page.  The loop gets to every manager,
    or, when a fetch raises an exception that is not caught, to the
    managers up to that one.  So every request for a manager's page comes
    directly after a pause, there is one pause per manager reached, also for
    a manager whose request then fails, and none before the listing page or
    after the last request. *)
Theorem X3_one_pause_per_manager (web : Web) (writer : Writer) (rand : nat -> Q)
    (soup : node) :
  web MANAGERS_URL = Page soup ->
  manager_links_of soup <> [] ->
  let managers := manager_links_of soup in
  let run := main web writer rand in
  timeline (trace run)
  = Request MANAGERS_URL
    :: flat_map (fun im => [Sleep (rand (fst im)); Request (url (snd im))])
                (enumerate 1 (reached web managers))
  /\ pauses (trace run) = List.map rand (seq 1 (length (reached web managers)))
  /\ (first_crash web managers = None -> reached web managers = managers).
Proof.
  intros Hweb Hms managers run. subst run.
  destruct (main_loop web writer rand soup Hweb Hms) as (out & _ & Hp & _ & _ & Hmain).
  fold managers in Hp, Hmain.
  assert (Htl : timeline (trace (main web writer rand))
                = Request MANAGERS_URL
                  :: flat_map (pause_then_request rand)
                              (enumerate 1 (reached web managers))).
  { rewrite Hmain. destruct (first_crash web managers) as [e|]; cbn [trace].
    - rewrite timeline_app, Hp. reflexivity.
    - match goal with |- context [save_results writer ?t] =>
        destruct (save_results_eq writer t) as (_ & _ & _ & _ & Hp' & _) end.
      rewrite !timeline_app, Hp, Hp'. cbn [timeline List.filter app].
      rewrite app_nil_r. reflexivity. }
  split; [exact Htl|]. split.
  - rewrite <- pauses_timeline, Htl. cbn [pauses omap list_omap].
    apply pauses_of_passes.
  - intros Hnone. apply reached_all, Hnone.
Qed.

Lemma parse_holdings_manager (soup : node) (mgr : str) (records : list HoldingRecord) r :
  parse_holdings soup mgr = Ok records -> r ∈ records -> Manager r = mgr.
Proof.
  intros Hrun Hr. rewrite parse_holdings_eq in Hrun. injection Hrun as <-.
  destruct (locate_table soup) as [table|]; [|inversion Hr].
  destruct (find_all is_tr table) as [|header_row rows]; [inversion Hr|].
  apply list_elem_of_omap in Hr as (row & _ & Hrow).
  apply row_record_inv in Hrow as (_ & _ & _ & Hm & _). exact Hm.
Qed.

(** X4.  What a run that got its managers writes.  The records are those
    of the managers in the order of the listing, manager by manager, each
    manager's records in the order of its table, and every record carries
    the name of a manager of the listing whose page was fetched and
    accepted by the period filter.  When no fetch raises an exception that
    is not caught, there is at least one record and [to_excel] returns, the
    run writes one file with a row per record, in that order; in every
    other case it writes none. *)
Theorem X4_records_by_manager (web : Web) (writer : Writer) (rand : nat -> Q)
    (soup : node) :
  web MANAGERS_URL = Page soup ->
  manager_links_of soup <> [] ->
  let managers := manager_links_of soup in
  let records := flat_map (entity_records web) managers in
  exports (trace (main web writer rand))
  = match first_crash web managers, records with
    | None, _ :: _ =>
        match writer OUTPUT_FILE "Q4 2025 Buys"%string export_columns
                     (record_values <$> records) with
        | None => [(OUTPUT_FILE, "Q4 2025 Buys"%string, export_columns,
                    record_values <$> records)]
        | Some _ => []
        end
    | _, _ => []
    end
  /\ (forall r, r ∈ records ->
        exists mgr, mgr ∈ managers /\ Manager r = name mgr
                    /\ kind_of web mgr = Qualified).
Proof.
  intros Hweb Hms managers records. split.
  - destruct (main_loop web writer rand soup Hweb Hms) as (out & _ & _ & _ & Hx & ->).
    fold managers. fold records.
    destruct (first_crash web managers) as [e|]; cbn [trace].
    + rewrite exports_app, Hx. reflexivity.
    + match goal with |- context [save_results writer ?t] =>
        destruct (save_results_eq writer t) as (_ & Hx' & _) end.
      rewrite !exports_app, Hx, Hx'. cbn [all_records exports omap list_omap app].
      unfold written, export_error, export_of.
      destruct records; reflexivity.
  - intros r Hr. unfold records in Hr.
    apply list_elem_of_In, in_flat_map in Hr as (mgr & Hmgr & Hr).
    exists mgr. split; [apply list_elem_of_In; exact Hmgr|].
    unfold entity_records in Hr. unfold kind_of.
    destruct (web (url mgr)) as [page| |e]; [|inversion Hr..].
    destruct (is_q4_2025 page); [|inversion Hr].
    split; [|reflexivity].
    destruct (parse_holdings page (name mgr)) as [rs|e] eqn:Hp; [|inversion Hr].
    eapply parse_holdings_manager; [exact Hp | apply list_elem_of_In; exact Hr].
Qed.

End RunProperties.

Lemma X1_exit_status_witness :
  pauses (trace (@main plain_data (fun _ => RequestException) plain_writer two_seconds)) = []
  /\ status (@main plain_data web_control openpyxl_writer two_seconds)
     = Uncaught (Escaped "IllegalCharacterError").
Proof.
  split.
  - apply (proj2 (@X1_exit_status plain_data (fun _ => RequestException) plain_writer
                    two_seconds) 1%nat).
    vm_compute. reflexivity.
  - rewrite (proj1 (@X1_exit_status plain_data web_control openpyxl_writer two_seconds)).
    vm_compute. reflexivity.
Defined.

Lemma X2_summary_counts_witness :
  summaries (trace (@main plain_data web_apple plain_writer two_seconds)) = [(1, 0, 1)]%nat
  /\ summaries (trace (@main plain_data web_detail_crash plain_writer two_seconds)) = [].
Proof.
  split.
  - destruct (@X2_summary_counts plain_data web_apple plain_writer two_seconds
                one_link_page) as (Hsum & _).
    + vm_compute. reflexivity.
    + vm_compute. discriminate.
    + destruct Hsum as (-> & _); vm_compute; reflexivity.
  - destruct (@X2_summary_counts plain_data web_detail_crash plain_writer two_seconds
                one_link_page) as (_ & Hcrash).
    + vm_compute. reflexivity.
    + vm_compute. discriminate.
    + apply (Hcrash (Escaped "ParserRejectedMarkup")). vm_compute. reflexivity.
Defined.

Lemma X3_one_pause_per_manager_witness :
  timeline (trace (@main plain_data web_detail_down plain_writer three_seconds))
  = [Request MANAGERS_URL; Sleep 3%Q; Request (url buffett)].
Proof.
  destruct (@X3_one_pause_per_manager plain_data web_detail_down plain_writer
              three_seconds one_link_page) as (-> & _).
  - vm_compute. reflexivity.
  - vm_compute. discriminate.
  - vm_compute. reflexivity.
Defined.

Lemma X4_records_by_manager_witness :
  exports (trace (@main plain_data web_apple plain_writer two_seconds))
  = [(OUTPUT_FILE, "Q4 2025 Buys"%string, export_columns,
      [record_values (apple_record (name buffett))])].
Proof.
  destruct (@X4_records_by_manager plain_data web_apple plain_writer two_seconds
              one_link_page) as (Hexp & _).
  - vm_compute. reflexivity.
  - vm_compute. discriminate.
  - rewrite Hexp. vm_compute. reflexivity.
Defined.

(* ===================================================================== *)
(** ** More on the Index Collector *)
(* ===================================================================== *)

Section CollectorProperties.

Lemma spec_first_seen_sublist (ms : list ManagerRef) :
  spec_first_seen ms `sublist_of` ms.
Proof.
  induction ms as [|m ms IH]; [constructor|]. cbn [spec_first_seen].
  apply sublist_skip. etransitivity; [apply sublist_filter | exact IH].
Qed.

Lemma filter_other_urls (u : list N) (ms : list ManagerRef) :
  u ∉ url <$> ms -> filter (fun m' => url m' <> u) ms = ms.
Proof.
  induction ms as [|m' ms IH]; [reflexivity|]. rewrite fmap_cons.
  intros [Hne Hu]%not_elem_of_cons.
  rewrite filter_cons_True by congruence. f_equal. apply IH, Hu.
Qed.

Lemma spec_first_seen_id (ms : list ManagerRef) :
  NoDup (url <$> ms) -> spec_first_seen ms = ms.
Proof.
  induction ms as [|m ms IH]; [reflexivity|]. rewrite fmap_cons.
  intros [Hm Hms]%NoDup_cons. cbn [spec_first_seen]. rewrite (IH Hms). f_equal.
  apply filter_other_urls, Hm.
Qed.

(** X6.  Removing duplicates a second time changes nothing; what is kept
    is kept in the order of the input, the first link first; and a list
    whose URLs are all different is returned as it is. *)
Theorem X6_dedup_stable (ms : list ManagerRef) :
  dedup (dedup ms) = dedup ms
  /\ dedup ms `sublist_of` ms
  /\ head (dedup ms) = head ms
  /\ (NoDup (url <$> ms) -> dedup ms = ms).
Proof.
  rewrite !dedup_eq. split; [|split; [|split]].
  - apply spec_first_seen_id, spec_first_seen_NoDup.
  - apply spec_first_seen_sublist.
  - destruct ms; reflexivity.
  - apply spec_first_seen_id.
Qed.

Lemma full_url_of_keeps (part href : str) :
  str_in part href = true -> str_in part (full_url_of href) = true.
Proof.
  intros Hin. unfold full_url_of. destruct (startswith href (cps "/")); [|exact Hin].
  apply str_in_occurs. apply str_in_occurs in Hin. apply occurs_in_app_l. exact Hin.
Qed.

Lemma full_url_of_not_rooted (href : str) :
  startswith (full_url_of href) (cps "/") = false.
Proof.
  unfold full_url_of. destruct (startswith href (cps "/")) eqn:E; [reflexivity | exact E].
Qed.

(** X5.  Every manager the collector returns comes from an [a] element of
    the page: its name is the element's stripped text and is not empty; its
    URL is the element's [href], with the site's origin put in front when
    the [href] starts with a slash; the URL contains "holdings.php?m=" and
    never starts with a slash. *)
Theorem X5_collected_links (soup : node) (m : ManagerRef) :
  m ∈ manager_links_of soup ->
  exists link href,
    link ∈ descendants soup
    /\ tag_named [cps "a"] link = true
    /\ attr link (cps "href") = Some href
    /\ name m = get_text [] link
    /\ name m <> []
    /\ url m = full_url_of href
    /\ str_in (cps "holdings.php?m=") (url m) = true
    /\ startswith (url m) (cps "/") = false.
Proof.
  unfold manager_links_of. rewrite dedup_eq, manager_entries_eq. intros Hm.
  eapply elem_of_sublist in Hm; [|apply spec_first_seen_sublist].
  apply list_elem_of_fmap in Hm as (link & -> & Hlink).
  apply list_elem_of_In, filter_In in Hlink as [Hlink Hnamed].
  unfold manager_anchors, select_a_href_contains, find_all in Hlink.
  apply filter_In in Hlink as [Hdesc Hsel].
  apply andb_prop in Hsel as [Htag Hhref].
  destruct (attr link (cps "href")) as [href|] eqn:Hattr; [|discriminate].
  exists link, href. cbn [entry_of name url]. unfold get. rewrite Hattr. cbn [default].
  split; [apply list_elem_of_In; exact Hdesc|].
  split; [exact Htag|]. split; [reflexivity|]. split; [reflexivity|].
  split.
  { unfold named_anchor in Hnamed. apply andb_prop in Hnamed as [_ Hname].
    intros Hnil. rewrite Hnil in Hname. discriminate. }
  split; [reflexivity|].
  split; [apply full_url_of_keeps; exact Hhref | apply full_url_of_not_rooted].
Qed.

End CollectorProperties.

Lemma X5_collected_links_witness :
  str_in (cps "holdings.php?m=") (url buffett) = true /\ name buffett <> [].
Proof.
  destruct (X5_collected_links one_link_page buffett)
    as (link & href & _ & _ & _ & _ & Hname & _ & Hurl & _).
  - vm_compute. left.
  - split; [exact Hurl | exact Hname].
Defined.

(* ===================================================================== *)
(** ** More on the column map *)
(* ===================================================================== *)

Section ColumnMapProperties.
Local Open Scope string_scope.

Lemma enumerate_snoc {A} (start : nat) (l : list A) (x : A) :
  enumerate start (l ++ [x])%list = (enumerate start l ++ [((start + length l)%nat, x)])%list.
Proof.
  revert start. induction l as [|y l IH]; intros start; simpl.
  - rewrite Nat.add_0_r. reflexivity.
  - rewrite IH, Nat.add_succ_comm. reflexivity.
Qed.

(** The loop of line 136, one header further. *)
Lemma build_col_map_snoc (headers : list str) (h : str) :
  build_col_map (headers ++ [h])%list
  = map_column (build_col_map headers) (length headers) h.
Proof.
  unfold build_col_map. rewrite enumerate_snoc, fold_left_app. reflexivity.
Qed.

(** What one header does to the entry of a field. *)
Lemma map_column_lookup (col_map : gmap string nat) (i : nat) (h : str) (key : string) :
  map_column col_map i h !! key
  = if goes_to key h
    then if bool_decide (key = "price") && negb (str_in (cps "reported") h)
            && bool_decide (is_Some (col_map !! "price"))
         then col_map !! key
         else Some i
    else col_map !! key.
Proof.
  unfold map_column, goes_to, field_of.
  destruct (str_in (cps "stock") h).
  { rewrite lookup_insert. repeat case_bool_decide; repeat case_decide;
      simplify_eq; try reflexivity; try congruence. }
  destruct (str_in (cps "activity") h).
  { rewrite lookup_insert. repeat case_bool_decide; repeat case_decide;
      simplify_eq; try reflexivity; try congruence. }
  destruct (str_in (cps "portfolio") h && str_in (cps "%") h).
  { rewrite lookup_insert. repeat case_bool_decide; repeat case_decide;
      simplify_eq; try reflexivity; try congruence. }
  destruct (str_in (cps "reported") h); cbn [orb andb negb].
  { rewrite lookup_insert. repeat case_bool_decide; repeat case_decide;
      simplify_eq; try reflexivity; try congruence. }
  destruct (str_in (cps "price") h); cbn [orb andb negb].
  - destruct (bool_decide (is_Some (col_map !! "price"))) eqn:E; cbn [negb andb].
    + repeat case_bool_decide; simplify_eq; reflexivity.
    + rewrite lookup_insert. repeat case_bool_decide; repeat case_decide;
        simplify_eq; try reflexivity; try congruence.
  - case_bool_decide; [discriminate | reflexivity].
Qed.

Lemma goes_to_spec (key : string) (h : str) :
  goes_to key h = true <-> field_of h = Some key.
Proof. unfold goes_to. apply bool_decide_eq_true. Qed.

(** X7.  A field is in the column map exactly when some header goes to it
    by the keyword chain, and the index it is mapped to is then the position
    of such a header: the map never points outside the header row. *)
Theorem X7_col_map_sound (headers : list str) (key : string) :
  (forall i, build_col_map headers !! key = Some i ->
             exists h, headers !! i = Some h /\ field_of h = Some key)
  /\ (is_Some (build_col_map headers !! key)
      <-> exists h, h ∈ headers /\ field_of h = Some key).
Proof.
  assert (Hidx : forall i, build_col_map headers !! key = Some i ->
                           exists h, headers !! i = Some h /\ field_of h = Some key).
  { induction headers as [|h headers IH] using rev_ind; intros i Hi.
    - unfold build_col_map in Hi. simpl in Hi. rewrite lookup_empty in Hi. discriminate.
    - rewrite build_col_map_snoc, map_column_lookup in Hi.
      assert (Hold : build_col_map headers !! key = Some i ->
                     exists h0, (headers ++ [h])%list !! i = Some h0
                                /\ field_of h0 = Some key).
      { intros Hc. destruct (IH i Hc) as (h0 & Hh0 & Hf).
        exists h0. split; [|exact Hf]. apply lookup_app_l_Some. exact Hh0. }
      destruct (goes_to key h) eqn:Hg; [|auto].
      destruct (_ && _); [auto|]. injection Hi as <-.
      exists h. split; [|apply goes_to_spec; exact Hg].
      rewrite lookup_app_r by lia. rewrite Nat.sub_diag. reflexivity. }
  split; [exact Hidx|]. split.
  - intros [i Hi]. destruct (Hidx i Hi) as (h & Hh & Hf).
    exists h. split; [eapply list_elem_of_lookup_2; exact Hh | exact Hf].
  - clear Hidx. intros (h0 & Hin & Hf).
    induction headers as [|h headers IH] using rev_ind; [inversion Hin|].
    rewrite build_col_map_snoc, map_column_lookup.
    apply elem_of_app in Hin as [Hin | Hin%list_elem_of_singleton].
    + specialize (IH Hin). destruct (goes_to key h); [|exact IH].
      destruct (_ && _); [exact IH | eauto].
    + subst h0. apply goes_to_spec in Hf. rewrite Hf.
      destruct (bool_decide (key = "price")) eqn:Hk; cbn [andb]; [|eauto].
      apply bool_decide_eq_true in Hk. subst key.
      destruct (negb _); cbn [andb]; [|eauto].
      case_bool_decide; [assumption | eauto].
Qed.

Lemma last_index_snoc {A} (p : A -> bool) (start : nat) (l : list A) (x : A) :
  last_index p start (l ++ [x])%list
  = if p x then Some (start + length l)%nat else last_index p start l.
Proof.
  revert start. induction l as [|y l IH]; intros start; simpl.
  - rewrite Nat.add_0_r. destruct (p x); reflexivity.
  - rewrite IH. destruct (p x); [f_equal; lia | reflexivity].
Qed.

Lemma first_index_snoc {A} (p : A -> bool) (start : nat) (l : list A) (x : A) :
  first_index p start (l ++ [x])%list
  = match first_index p start l with
    | Some i => Some i
    | None => if p x then Some (start + length l)%nat else None
    end.
Proof.
  revert start. induction l as [|y l IH]; intros start; simpl.
  - rewrite Nat.add_0_r. reflexivity.
  - destruct (p y); [reflexivity|]. rewrite IH.
    destruct (first_index p (S start) l); [reflexivity|].
    destruct (p x); [f_equal; lia | reflexivity].
Qed.

(** X8.  For the stock, activity and portfolio fields the last header that
    goes to the field wins.  For the price field the last header that goes
    to it and says "reported" wins, and when no header says "reported" the
    first header that goes to it wins. *)
Theorem X8_col_map_winner (headers : list str) :
  (forall key, key ∈ ["stock"; "activity"; "portfolio_pct"] ->
     build_col_map headers !! key = last_index (goes_to key) 0 headers)
  /\ build_col_map headers !! "price"
     = match last_index (fun h => goes_to "price" h && str_in (cps "reported") h)
                        0 headers with
       | Some i => Some i
       | None => first_index (goes_to "price") 0 headers
       end.
Proof.
  split.
  - intros key Hkey.
    assert (Hnp : bool_decide (key = "price") = false).
    { apply bool_decide_eq_false. set_solver. }
    induction headers as [|h headers IH] using rev_ind; [reflexivity|].
    rewrite build_col_map_snoc, map_column_lookup, last_index_snoc, IH, Hnp.
    reflexivity.
  - induction headers as [|h headers IH] using rev_ind; [reflexivity|].
    rewrite build_col_map_snoc, map_column_lookup, last_index_snoc, first_index_snoc.
    rewrite IH. cbn [Nat.add]. clear IH.
    destruct (goes_to "price" h) eqn:Hg; cbn [andb].
    + rewrite bool_decide_eq_true_2 by reflexivity. cbn [andb].
      destruct (str_in (cps "reported") h); cbn [negb andb]; [reflexivity|].
      destruct (last_index _ 0 headers) as [i|].
      * rewrite bool_decide_eq_true_2 by eauto. reflexivity.
      * destruct (first_index _ 0 headers) as [j|].
        -- rewrite bool_decide_eq_true_2 by eauto. reflexivity.
        -- rewrite bool_decide_eq_false_2 by (intros [? ?]; discriminate). reflexivity.
    + destruct (last_index _ 0 headers); [reflexivity|].
      destruct (first_index _ 0 headers); reflexivity.
Qed.

End ColumnMapProperties.

Lemma X7_col_map_sound_witness :
  exists h, [cps "stock"; cps "reported price"] !! 1%nat = Some h
            /\ field_of h = Some "price"%string.
Proof.
  apply (proj1 (X7_col_map_sound [cps "stock"; cps "reported price"] "price")).
  vm_compute. reflexivity.
Defined.

Lemma X8_col_map_winner_witness :
  build_col_map [cps "stock"; cps "old stock"] !! "stock"%string = Some 1%nat.
Proof.
  rewrite (proj1 (X8_col_map_winner [cps "stock"; cps "old stock"])).
  - vm_compute. reflexivity.
  - set_solver.
Defined.

(* ===================================================================== *)
(** ** More on the Table Extractor *)
(* ===================================================================== *)

Section TableChoice.
Context {U : Unicode}.

Lemma head_filter_Some {A} (p : A -> bool) (l : list A) (x : A) :
  head (List.filter p l) = Some x -> In x l /\ p x = true.
Proof.
  intros Hh. apply filter_In. destruct (List.filter p l) as [|y l'] eqn:E; [discriminate|].
  injection Hh as ->. left. reflexivity.
Qed.

Lemma head_filter_found {A} (p : A -> bool) (l : list A) (x : A) :
  In x l -> p x = true -> exists y, head (List.filter p l) = Some y /\ p y = true.
Proof.
  intros Hin Hp. destruct (List.filter p l) as [|y l'] eqn:E.
  - assert (Hx : In x (List.filter p l)) by (apply filter_In; auto).
    rewrite E in Hx. destruct Hx.
  - exists y. split; [reflexivity|].
    assert (Hy : In y (List.filter p l)) by (rewrite E; left; reflexivity).
    apply filter_In in Hy. apply Hy.
Qed.

Lemma head_filter_none {A} (p : A -> bool) (l : list A) :
  (forall x, In x l -> p x = false) -> head (List.filter p l) = None.
Proof.
  intros Hnone. destruct (List.filter p l) as [|y l'] eqn:E; [reflexivity|].
  assert (Hy : In y (List.filter p l)) by (rewrite E; left; reflexivity).
  apply filter_In in Hy as [Hin Hp]. rewrite (Hnone y Hin) in Hp. discriminate.
Qed.

(** X9.  The table [parse_holdings] works on is a [table] element of the
    page.  When some table has the id "grid", the chosen table has that id,
    wherever a table of class "holdings" stands; when none has the id and
    some table has the class, the chosen table has the class.  A page
    without any table gives no record, an empty result and a warning. *)
Theorem X9_table_choice (soup : node) :
  (forall table, locate_table soup = Some table ->
     table ∈ descendants soup /\ is_table table = true)
  /\ (forall t, t ∈ descendants soup -> is_table t = true ->
        has_id (cps "grid") t = true ->
        exists table, locate_table soup = Some table
                      /\ has_id (cps "grid") table = true)
  /\ (forall t, t ∈ descendants soup -> is_table t = true ->
        has_class (cps "holdings") t = true ->
        (forall t', t' ∈ descendants soup -> is_table t' = true ->
                    has_id (cps "grid") t' = false) ->
        exists table, locate_table soup = Some table
                      /\ has_class (cps "holdings") table = true)
  /\ ((forall t, t ∈ descendants soup -> is_table t = false) ->
      forall mgr, locate_table soup = None
                  /\ parse_holdings soup mgr = Ok []
                  /\ parse_holdings_warns soup = true).
Proof.
  unfold locate_table, find, find_all. split; [|split; [|split]].
  - intros table Hloc.
    destruct (head (List.filter _ (descendants soup))) as [t1|] eqn:H1.
    { injection Hloc as <-. apply head_filter_Some in H1 as [Hin Hp].
      apply andb_prop in Hp as [Ht _]. split; [apply list_elem_of_In, Hin | exact Ht]. }
    destruct (head (List.filter (fun t => is_table t && has_class _ t) _)) as [t2|] eqn:H2.
    { injection Hloc as <-. apply head_filter_Some in H2 as [Hin Hp].
      apply andb_prop in Hp as [Ht _]. split; [apply list_elem_of_In, Hin | exact Ht]. }
    apply head_filter_Some in Hloc as [Hin _].
    apply filter_In in Hin as [Hin Ht]. split; [apply list_elem_of_In, Hin | exact Ht].
  - intros t Hin Ht Hid.
    destruct (head_filter_found (fun t => is_table t && has_id (cps "grid") t)
                (descendants soup) t) as (table & -> & Hp).
    + apply list_elem_of_In, Hin.
    + rewrite Ht, Hid. reflexivity.
    + exists table. split; [reflexivity|]. apply andb_prop in Hp. apply Hp.
  - intros t Hin Ht Hcl Hnoid.
    rewrite (head_filter_none (fun t => is_table t && has_id (cps "grid") t)).
    + destruct (head_filter_found (fun t => is_table t && has_class (cps "holdings") t)
                  (descendants soup) t) as (table & -> & Hp).
      * apply list_elem_of_In, Hin.
      * rewrite Ht, Hcl. reflexivity.
      * exists table. split; [reflexivity|]. apply andb_prop in Hp. apply Hp.
    + intros x Hx. destruct (is_table x) eqn:Hxt; [|reflexivity].
      rewrite (Hnoid x); [reflexivity | apply list_elem_of_In, Hx | exact Hxt].
  - intros Hnone mgr.
    assert (Hloc : locate_table soup = None).
    { unfold locate_table, find, find_all.
      rewrite !head_filter_none; [reflexivity|..].
      - intros x Hx. apply filter_In in Hx as [Hx Ht].
        rewrite Hnone in Ht; [discriminate | apply list_elem_of_In, Hx].
      - intros x Hx. rewrite Hnone; [reflexivity | apply list_elem_of_In, Hx].
      - intros x Hx. rewrite Hnone; [reflexivity | apply list_elem_of_In, Hx]. }
    fold (find_all is_table soup). fold (find (fun t => is_table t && has_id (cps "grid") t) soup).
    split; [exact Hloc|]. split.
    + rewrite parse_holdings_eq, Hloc. reflexivity.
    + unfold parse_holdings_warns. rewrite Hloc. reflexivity.
Qed.

End TableChoice.

Lemma X9_table_choice_witness :
  exists table, locate_table two_tables_page = Some table
                /\ has_id (cps "grid") table = true.
Proof.
  apply (proj1 (proj2 (@X9_table_choice plain_data two_tables_page))
           (apple_table [(cps "id", cps "grid")])).
  - vm_compute. set_solver.
  - reflexivity.
  - reflexivity.
Defined.

Section RowProperties.
Context {U : Unicode}.
Local Open Scope string_scope.

(** X10.  A row whose cells do not reach the activity column gives no
    record; with no activity header recognised that column is the fifth, so
    rows of fewer than five cells give none.  In a record, the percentage
    and the price are empty when the row does not reach their column, and
    are the text of the cell at that column otherwise. *)
Theorem X10_missing_columns (col_map : gmap string nat) (mgr : str) (row : node) :
  ((length (row_cells row) <= col_get col_map "activity" 4)%nat ->
   parse_row col_map mgr row = Ok None)
  /\ (col_map !! "activity" = None -> (length (row_cells row) < 5)%nat ->
      parse_row col_map mgr row = Ok None)
  /\ (forall r, parse_row col_map mgr row = Ok (Some r) ->
      ((length (row_cells row) <= col_get col_map "portfolio_pct" 2)%nat ->
       Portfolio_pct r = [])
      /\ ((length (row_cells row) <= col_get col_map "price" 5)%nat ->
          Reported_Price r = [])
      /\ (forall c, nth_error (row_cells row) (col_get col_map "portfolio_pct" 2) = Some c ->
                    Portfolio_pct r = get_text (cps " ") c)
      /\ (forall c, nth_error (row_cells row) (col_get col_map "price" 5) = Some c ->
                    Reported_Price r = get_text (cps " ") c)).
Proof.
  assert (Hfar : (length (row_cells row) <= col_get col_map "activity" 4)%nat ->
                 parse_row col_map mgr row = Ok None).
  { intros Hlen. rewrite parse_row_total. f_equal. apply row_record_filtered.
    unfold activity_of, text_at. apply nth_error_None in Hlen. rewrite Hlen.
    reflexivity. }
  split; [exact Hfar|]. split.
  - intros Hnone Hlen. apply Hfar. unfold col_get. rewrite Hnone. simpl. lia.
  - intros r Hr.
    destruct (parse_row_eq col_map mgr row) as (s & t & _ & Heq).
    rewrite Heq in Hr. injection Hr as Hr.
    destruct (_ <? 3)%nat; [discriminate|].
    destruct (negb _); [discriminate|]. injection Hr as <-. cbn [Portfolio_pct Reported_Price].
    unfold text_at. repeat split.
    + intros Hlen. apply nth_error_None in Hlen. rewrite Hlen. reflexivity.
    + intros Hlen. apply nth_error_None in Hlen. rewrite Hlen. reflexivity.
    + intros c ->. reflexivity.
    + intros c ->. reflexivity.
Qed.

End RowProperties.

Section TrimmedFields.
Context {U : Unicode}.

Lemma last_rev (l : list N) : last (rev l) = head l.
Proof. destruct l as [|x l]; [reflexivity|]. simpl. apply last_snoc. Qed.

Lemma head_rev (l : list N) : head (rev l) = last l.
Proof.
  destruct l as [|x l _] using rev_ind; [reflexivity|].
  rewrite rev_unit, last_snoc. reflexivity.
Qed.

Lemma lstrip_head (s : str) (c : N) : head (lstrip s) = Some c -> is_space c = false.
Proof.
  induction s as [|x s IH]; simpl; [discriminate|].
  destruct (is_space x) eqn:E; [exact IH|]. simpl. intros [= <-]. exact E.
Qed.

Lemma lstrip_suffix (s : str) : exists pre, s = pre ++ lstrip s.
Proof.
  induction s as [|x s [pre IH]]; simpl; [exists []; reflexivity|].
  destruct (is_space x); [|exists []; reflexivity].
  exists (x :: pre). simpl. f_equal. exact IH.
Qed.

(** [strip] leaves no white space at either end. *)
Lemma strip_trimmed (s : str) : trimmed (strip s).
Proof.
  unfold strip, trimmed. split; intros c Hc.
  - rewrite head_rev in Hc.
    destruct (lstrip_suffix (rev (lstrip s))) as [pre Hpre].
    assert (Hlast : last (rev (lstrip s)) = Some c).
    { rewrite Hpre, last_app, Hc. reflexivity. }
    rewrite last_rev in Hlast. eapply lstrip_head, Hlast.
  - rewrite last_rev in Hc. eapply lstrip_head, Hc.
Qed.

Lemma join_nonempty (sep : str) (parts : list str) :
  Forall (fun p => p <> []) parts -> parts <> [] -> join sep parts <> [].
Proof.
  intros Hall Hne. destruct Hall as [|p ps Hp Hps]; [congruence|].
  destruct p as [|c p]; [congruence|]. destruct ps; discriminate.
Qed.

Lemma join_trimmed (sep : str) (parts : list str) :
  Forall (fun p => p <> [] /\ trimmed p) parts -> trimmed (join sep parts).
Proof.
  induction 1 as [|p ps [Hp [Hhead Hlast]] Hps IH]; [split; discriminate|].
  destruct ps as [|q ps]; [split; assumption|].
  change (join sep (p :: q :: ps)) with (p ++ sep ++ join sep (q :: ps)).
  split; intros c Hc.
  - apply Hhead. destruct p; [congruence | exact Hc].
  - apply IH. rewrite !last_app in Hc.
    destruct (last (join sep (q :: ps))) eqn:E; [exact Hc|].
    apply last_None in E. exfalso. revert E. apply join_nonempty; [|discriminate].
    eapply Forall_impl; [exact Hps|]. intros x [Hx _]. exact Hx.
Qed.

(** [get_text(..., strip=True)] leaves no white space at either end. *)
Lemma get_text_trimmed (sep : str) (n : node) : trimmed (get_text sep n).
Proof.
  unfold get_text, stripped_strings. apply join_trimmed.
  apply Forall_forall. intros p Hp. apply list_elem_of_In, filter_In in Hp as [Hin Hne].
  split; [intros ->; discriminate|].
  apply list_elem_of_In, list_elem_of_omap in Hin as (d & _ & Hd).
  destruct d; try discriminate. injection Hd as <-. apply strip_trimmed.
Qed.

Lemma text_at_trimmed (cells : list node) (idx : nat) : trimmed (text_at cells idx).
Proof.
  unfold text_at. destruct (nth_error cells idx); [apply get_text_trimmed|].
  split; discriminate.
Qed.

(** X11.  The stock name, the activity, the percentage and the price of a
    record have no white space at either end. *)
Theorem X11_fields_trimmed (col_map : gmap string nat) (mgr : str) (row : node) r :
  parse_row col_map mgr row = Ok (Some r) ->
  trimmed (Stock r) /\ trimmed (Recent_Activity r)
  /\ trimmed (Portfolio_pct r) /\ trimmed (Reported_Price r).
Proof.
  intros Hr. destruct (parse_row_eq col_map mgr row) as (s & t & _ & Heq).
  rewrite Heq in Hr. injection Hr as Hr.
  destruct (_ <? 3)%nat; [discriminate|].
  destruct (negb _); [discriminate|]. injection Hr as <-.
  cbn [Stock Recent_Activity Portfolio_pct Reported_Price]. unfold activity_of.
  split; [apply strip_trimmed|]. repeat split; apply text_at_trimmed.
Qed.

End TrimmedFields.

Lemma X10_missing_columns_witness :
  @parse_row plain_data ∅ [] apple_row = Ok None.
Proof.
  apply (proj1 (proj2 (@X10_missing_columns plain_data ∅ [] apple_row))).
  - reflexivity.
  - vm_compute. lia.
Defined.

Lemma X11_fields_trimmed_witness :
  trimmed (cps "Apple Inc - AAPL").
Proof.
  apply (@X11_fields_trimmed plain_data apple_columns [] apple_row (apple_record [])).
  vm_compute. reflexivity.
Defined.

(* ===================================================================== *)
(** ** More on the ticker *)
(* ===================================================================== *)

Section TickerProperties.
Context {U : Unicode}.

(** Induction on the tree. *)
Lemma node_induction (P : node -> Prop) :
  (forall s, P (Text s)) ->
  (forall s, P (Special s)) ->
  (forall nm attrs cs, Forall P cs -> P (Tag nm attrs cs)) ->
  forall n, P n.
Proof.
  intros HT HS HTag. fix IH 1. intros [s|s|nm attrs cs]; [apply HT | apply HS|].
  apply HTag. induction cs as [|c cs IHcs]; constructor; [apply IH | exact IHcs].
Qed.

(** What is below a descendant is below the tag. *)
Lemma descendants_trans (n d e : node) :
  d ∈ descendants n -> e ∈ descendants d -> e ∈ descendants n.
Proof.
  revert d e. induction n as [s|s|nm attrs cs IH] using node_induction;
    intros d e Hd He; [inversion Hd..|].
  simpl in Hd |- *. apply list_elem_of_In, in_flat_map in Hd as (c & Hc & Hd).
  apply list_elem_of_In, in_flat_map. exists c. split; [exact Hc|].
  destruct Hd as [<- | Hd]; [right; apply list_elem_of_In; exact He|].
  right. apply list_elem_of_In.
  rewrite Forall_forall in IH. eapply IH; [apply list_elem_of_In; exact Hc | | exact He].
  apply list_elem_of_In. exact Hd.
Qed.

Lemma find_all_descendant (p : node -> bool) (n d : node) :
  d ∈ find_all p n -> d ∈ descendants n /\ p d = true.
Proof.
  unfold find_all. intros Hd. apply list_elem_of_In, filter_In in Hd as [Hd Hp].
  split; [apply list_elem_of_In; exact Hd | exact Hp].
Qed.

Lemma find_descendant (p : node -> bool) (n d : node) :
  find p n = Some d -> d ∈ descendants n /\ p d = true.
Proof.
  unfold find. intros Hd. apply find_all_descendant.
  destruct (find_all p n) as [|x l]; [discriminate|]. injection Hd as ->. left.
Qed.

Lemma locate_table_in (soup table : node) :
  locate_table soup = Some table -> table ∈ descendants soup /\ is_table table = true.
Proof.
  unfold locate_table. intros Hloc.
  destruct (find _ soup) as [t1|] eqn:H1.
  { injection Hloc as <-. apply find_descendant in H1 as [Hin Hp].
    apply andb_prop in Hp as [Ht _]. split; assumption. }
  destruct (find (fun t => is_table t && has_class _ t) soup) as [t2|] eqn:H2.
  { injection Hloc as <-. apply find_descendant in H2 as [Hin Hp].
    apply andb_prop in Hp as [Ht _]. split; assumption. }
  apply head_filter_Some in Hloc as [Hin _].
  apply list_elem_of_In, find_all_descendant in Hin. exact Hin.
Qed.

(** A non-ASCII code point that an ASCII pattern character matches under
    [re.IGNORECASE] is one of four. *)
Lemma lit_match_high (c x : N) :
  c < 128 -> 128 <= x -> lit_match true c x = true ->
  x = 0x130 \/ x = 0x131 \/ x = 0x17F \/ x = 0x212A.
Proof.
  intros Hc Hx. unfold lit_match, sre_fixes.
  assert (Hlo : sre_lower c < 128).
  { unfold sre_lower, is_upper_AZ.
    destruct (65 <=? c) eqn:E1; destruct (c <=? 90) eqn:E2; cbn [andb];
      try (apply N.leb_le in E2; lia);
      destruct (N.eqb_spec c 0x130); try lia;
      destruct (N.eqb_spec c 0x212A); lia. }
  assert (Hlx : x = 0x130 \/ x = 0x212A \/ sre_lower x = x).
  { unfold sre_lower, is_upper_AZ.
    destruct (x <=? 90) eqn:E2; [apply N.leb_le in E2; lia|].
    rewrite andb_false_r.
    destruct (N.eqb_spec x 0x130); [auto|].
    destruct (N.eqb_spec x 0x212A); auto. }
  destruct Hlx as [->|[->|Hlx]]; [auto | auto 6|]. rewrite Hlx.
  destruct (N.eqb_spec x (sre_lower c)); [lia|]. cbn [orb].
  destruct (sre_lower c =? 105); cbn [existsb orb].
  { destruct (N.eqb_spec x 0x131); [auto | discriminate]. }
  destruct (sre_lower c =? 115); cbn [existsb orb]; [|discriminate].
  destruct (N.eqb_spec x 0x17F); [auto | discriminate].
Qed.

Lemma char_range_bounds (lo hi c : N) :
  In c (char_range lo hi) -> lo <= c <= hi.
Proof.
  unfold char_range. intros Hin. apply in_map_iff in Hin as (i & <- & Hi).
  apply in_seq in Hi. lia.
Qed.

(** The upper case of whatever [[A-Z.]] matches under [re.IGNORECASE] is
    one code point of the ticker alphabet. *)
Lemma sym_set_upper (x : N) :
  set_match true sym_set x = true ->
  forallb ticker_char (upper_char x) = true /\ upper_char x <> [].
Proof.
  intros Hset. destruct (is_ascii x) eqn:Hx.
  - unfold upper_char. rewrite Hx. split; [|discriminate].
    pose proof (ascii_cases
                  (fun c => implb (set_match true sym_set c)
                                  (forallb ticker_char [ascii_upper c]))) as Hcases.
    specialize (Hcases ltac:(vm_compute; reflexivity) x Hx).
    cbv beta in Hcases. rewrite Hset in Hcases. exact Hcases.
  - assert (Hhigh : x = 0x130 \/ x = 0x131 \/ x = 0x17F \/ x = 0x212A).
    { apply N.ltb_ge in Hx. unfold set_match, sym_set in Hset.
      cbn [existsb item_match] in Hset. rewrite orb_false_r in Hset.
      apply orb_prop in Hset as [Hset|Hset].
      - apply existsb_exists in Hset as (c & Hc & Hm).
        apply char_range_bounds in Hc. change (ch "Z") with 90 in Hc.
        apply (lit_match_high c x); [lia | exact Hx | exact Hm].
      - apply (lit_match_high (ch ".") x); [reflexivity | exact Hx | exact Hset]. }
    destruct Hhigh as [-> | [-> | [-> | ->]]]; split; (reflexivity || discriminate).
Qed.

Lemma upper_sym_chars (t : str) :
  Forall (fun x => set_match true sym_set x = true) t ->
  forallb ticker_char (upper t) = true /\ (t <> [] -> upper t <> []).
Proof.
  induction 1 as [|x t Hx _ [IH _]]; [split; [reflexivity | congruence]|].
  destruct (sym_set_upper x Hx) as [Hc Hne]. unfold upper. cbn [flat_map]. split.
  - rewrite forallb_app, Hc. exact IH.
  - intros _ Hnil. apply app_eq_nil in Hnil as [Hnil _]. contradiction.
Qed.

Lemma sym_ticker_chars (href : str) (m : option str) :
  search true sym_re href = Some m ->
  forallb ticker_char (upper (group1 m)) = true /\ falsy (upper (group1 m)) = false.
Proof.
  intros Hs. apply search_sound in Hs as (pre & w & rest & prev & _ & Hm).
  apply sym_re_group in Hm as (w0 & t & _ & -> & Hne & Hset).
  destruct (upper_sym_chars t Hset) as [Hc Hnonempty]. split; [exact Hc|].
  simpl. specialize (Hnonempty Hne). destruct (upper t); [congruence | reflexivity].
Qed.

Lemma plain_ticker_chars (t : str) :
  plain_ticker t = true -> forallb ticker_char t = true.
Proof.
  unfold plain_ticker. rewrite !forallb_forall. intros Hall x Hx.
  specialize (Hall x Hx). unfold ticker_char.
  apply orb_prop in Hall as [->| ->]; [reflexivity|].
  rewrite orb_true_r. reflexivity.
Qed.

(** X13.  When the stock cell holds a link whose target has a [sym]
    parameter, the stock name is the text of the link and the ticker is the
    upper-cased parameter: the stock text is not searched.  When the cell
    holds no link, the stock name is the text of the cell and the ticker is
    empty or one to five capitals A-Z found after a dash in it.  When the
    row does not reach the stock column, both are empty. *)
Theorem X13_ticker_sources (col_map : gmap string nat) (cells : list node) :
  (forall cell link m,
     nth_error cells (col_get col_map "stock" 1) = Some cell ->
     find (tag_named [cps "a"]) cell = Some link ->
     search true sym_re (get link (cps "href") []) = Some m ->
     stock_and_ticker col_map cells
     = Ok (get_text (cps " ") link, upper (group1 m)))
  /\ (forall cell,
        nth_error cells (col_get col_map "stock" 1) = Some cell ->
        find (tag_named [cps "a"]) cell = None ->
        exists ticker,
          stock_and_ticker col_map cells = Ok (get_text (cps " ") cell, ticker)
          /\ (ticker = []
              \/ (1 <= length ticker <= 5)%nat
                 /\ Forall (fun c => is_upper_AZ c = true) ticker))
  /\ ((length cells <= col_get col_map "stock" 1)%nat ->
      stock_and_ticker col_map cells = Ok ([], [])).
Proof.
  split; [|split].
  - intros cell link m Hcell Hlink Hsym. unfold stock_and_ticker, py_index.
    assert (Hlt : (col_get col_map "stock" 1 <? length cells)%nat = true).
    { apply Nat.ltb_lt, nth_error_Some. congruence. }
    rewrite Hlt, Hcell. simpl. rewrite Hlink. simpl. rewrite Hsym. simpl.
    destruct (sym_ticker_chars _ _ Hsym) as [_ ->]. reflexivity.
  - intros cell Hcell Hlink. unfold stock_and_ticker, py_index.
    assert (Hlt : (col_get col_map "stock" 1 <? length cells)%nat = true).
    { apply Nat.ltb_lt, nth_error_Some. congruence. }
    rewrite Hlt, Hcell. simpl. rewrite Hlink. simpl.
    destruct (search false dash_re _) as [m|] eqn:Hdash.
    + apply search_sound in Hdash as (pre & w & rest & prev & _ & Hm).
      apply dash_re_group in Hm as (t & -> & Hlen & Hcaps).
      exists t. split; [reflexivity|]. right. split; assumption.
    + exists []. split; [reflexivity|]. left. reflexivity.
  - intros Hlen. unfold stock_and_ticker.
    apply Nat.ltb_ge in Hlen. rewrite Hlen. reflexivity.
Qed.

Lemma stock_and_ticker_chars (col_map : gmap string nat) (cells : list node)
    (stock_text ticker : str) :
  stock_and_ticker col_map cells = Ok (stock_text, ticker) ->
  forallb ticker_char ticker = true.
Proof.
  unfold stock_and_ticker, py_index.
  destruct (_ <? length cells)%nat eqn:E; simpl.
  - destruct (nth_error cells _) as [stock_cell|] eqn:Hn; [|discriminate].
    simpl. destruct (find _ stock_cell) as [stock_link|] eqn:Hlink; simpl.
    + destruct (search true sym_re _) as [m|] eqn:Hsym; simpl.
      * destruct (sym_ticker_chars _ _ Hsym) as [Hc ->]. intros [= _ <-]. exact Hc.
      * destruct (search false dash_re _) eqn:Hdash; intros [= _ <-];
          [apply plain_ticker_chars, (dash_ticker_plain _ _ Hdash) | reflexivity].
    + destruct (search false dash_re _) eqn:Hdash; intros [= _ <-];
        [apply plain_ticker_chars, (dash_ticker_plain _ _ Hdash) | reflexivity].
  - intros [= _ <-]. reflexivity.
Qed.

(** X12.  On any page, the ticker of a record is made of capitals A-Z,
    periods, capital I with dot above (U+0130) and Kelvin signs (U+212A),
    and of nothing else. *)
Theorem X12_ticker_alphabet (soup : node) (mgr : str) (records : list HoldingRecord) r :
  parse_holdings soup mgr = Ok records -> r ∈ records ->
  forallb ticker_char (Ticker r) = true.
Proof.
  intros Hrun Hr. rewrite parse_holdings_eq in Hrun. injection Hrun as <-.
  destruct (locate_table soup) as [table|]; [|inversion Hr].
  destruct (find_all is_tr table) as [|header_row rows]; [inversion Hr|].
  apply list_elem_of_omap in Hr as (row & _ & Hrow).
  apply row_record_inv in Hrow as (_ & _ & _ & _ & stock_text & Hst).
  eapply stock_and_ticker_chars, Hst.
Qed.

(** X14.  On a page all of whose links have ASCII targets, the ticker of
    a record is empty or made of capitals A-Z and periods only. *)
Theorem X14_ticker_plain_on_ascii (soup : node) (mgr : str)
    (records : list HoldingRecord) r :
  (forall link, link ∈ descendants soup -> tag_named [cps "a"] link = true ->
                Forall (fun c => is_ascii c = true) (get link (cps "href") [])) ->
  parse_holdings soup mgr = Ok records -> r ∈ records ->
  plain_ticker (Ticker r) = true.
Proof.
  intros Hlinks Hrun Hr. rewrite parse_holdings_eq in Hrun. injection Hrun as <-.
  destruct (locate_table soup) as [table|] eqn:Hloc; [|inversion Hr].
  destruct (find_all is_tr table) as [|header_row rows] eqn:Hrows; [inversion Hr|].
  apply list_elem_of_omap in Hr as (row & Hin & Hrow).
  apply row_record_inv in Hrow as (_ & _ & _ & _ & stock_text & Hst).
  assert (Htable : table ∈ descendants soup) by apply (locate_table_in _ _ Hloc).
  eapply ticker_plain_on_ascii_links; [|exact Hst].
  intros cell link Hcell Hfind.
  apply find_descendant in Hfind as [Hlink Ha].
  apply Hlinks; [|exact Ha].
  apply find_all_descendant in Hcell as [Hcell _].
  assert (Hrow : row ∈ descendants table).
  { apply (find_all_descendant is_tr). rewrite Hrows. right. exact Hin. }
  eapply descendants_trans; [exact Htable|].
  eapply descendants_trans; [exact Hrow|].
  eapply descendants_trans; [exact Hcell | exact Hlink].
Qed.

End TickerProperties.

Lemma X12_ticker_alphabet_witness :
  forallb ticker_char (cps "AAPL") = true.
Proof.
  apply (@X12_ticker_alphabet plain_data (apple_page []) []
           [apple_record []] (apple_record [])).
  - vm_compute. reflexivity.
  - left.
Defined.

Lemma X13_ticker_sources_witness :
  @stock_and_ticker plain_data apple_columns (row_cells kelvin_row)
  = Ok (cps "Kelvin Corp", [0x212A]).
Proof.
  apply (proj1 (@X13_ticker_sources plain_data apple_columns (row_cells kelvin_row))
           (el "td" []
               [el "a" [(cps "href", cps "/m/stock.php?sym=" ++ [0x212A])]
                   [Text (cps "Kelvin Corp")]])
           (el "a" [(cps "href", cps "/m/stock.php?sym=" ++ [0x212A])]
               [Text (cps "Kelvin Corp")])
           (Some [0x212A])); vm_compute; reflexivity.
Defined.

Lemma X14_ticker_plain_on_ascii_witness :
  plain_ticker (cps "AAPL") = true.
Proof.
  apply (@X14_ticker_plain_on_ascii plain_data (apple_page []) []
           [apple_record []] (apple_record [])).
  - intros link Hin Ha. vm_compute in Hin.
    repeat (apply elem_of_cons in Hin as [-> | Hin]; [discriminate Ha|]).
    inversion Hin.
  - vm_compute. reflexivity.
  - left.
Defined.

(* ===================================================================== *)
(** ** The matcher finds whatever the pattern describes *)
(* ===================================================================== *)

Section MatcherComplete.
Context {U : Unicode}.

Lemma after_cons (prev : option N) (x : N) (w : str) :
  after prev (x :: w) = after (Some x) w.
Proof.
  unfold after. destruct w as [|y w]; [reflexivity|].
  rewrite last_cons_cons. destruct (last (y :: w)) eqn:E; [reflexivity|].
  apply last_None in E. discriminate.
Qed.

(** Completeness of the matcher: if the pattern can read [w] here and the
    continuation accepts what follows, the matcher succeeds (on this reading
    or on one it tries earlier).  For a repeat the same holds of the loop
    under any fuel that covers the subject. *)
Lemma rmatch_complete_gen (ic : bool) r prev w rest g g' :
  Matches ic r prev w rest g g' ->
  forall (A : Type) (k : @kont A),
    is_Some (k (after prev w) rest g') ->
    is_Some (rmatch ic r prev (w ++ rest) g k)
    /\ (forall lo hi r0, r = Rep lo hi r0 ->
        forall fuel, (length (w ++ rest) <= fuel)%nat ->
          is_Some (rep_loop (fun p t c k' => rmatch ic r0 p t c k')
                            fuel lo hi prev (w ++ rest) g k)).
Proof.
  induction 1 as
    [ prev rest g | c x prev rest g Hx | items x prev rest g Hx
    | x prev rest g Hx | x prev rest g Hx | prev rest g Hb
    | r1 r2 prev w1 w2 rest g g1 g2 H1 IH1 H2 IH2
    | r1 r2 prev w rest g g' H1 IH1 | r1 r2 prev w rest g g' H2 IH2
    | hi r prev rest g
    | lo hi r prev w1 w2 rest g g1 g2 Hhi Hw1 H1 IH1 H2 IH2
    | r prev w rest g g' H1 IH1 ];
    intros A k Hk.
  - split; [exact Hk | discriminate].
  - split; [|discriminate]. simpl. rewrite Hx. exact Hk.
  - split; [|discriminate]. simpl. rewrite Hx. exact Hk.
  - split; [|discriminate]. simpl. rewrite Hx. exact Hk.
  - split; [|discriminate]. simpl. rewrite Hx. exact Hk.
  - split; [|discriminate]. simpl. rewrite Hb. exact Hk.
  - split; [|discriminate]. rewrite <- app_assoc. cbn [rmatch].
    apply IH1. apply IH2. rewrite after_app. exact Hk.
  - split; [|discriminate]. cbn [rmatch].
    destruct (proj1 (IH1 A k Hk)) as [a ->]. eauto.
  - split; [|discriminate]. cbn [rmatch].
    destruct (rmatch ic r1 prev (w ++ rest) g k); [eauto|]. apply IH2, Hk.
  - assert (Hloop : forall fuel,
               is_Some (rep_loop (fun p t c k' => rmatch ic r p t c k')
                                 fuel 0 hi prev ([] ++ rest) g k)).
    { intros fuel. destruct fuel as [|fuel]; [exact Hk|]. cbn [rep_loop].
      destruct hi as [[|h]|]; [exact Hk | |];
        (match goal with |- is_Some (match ?b with _ => _ end) =>
           destruct b; [eauto | exact Hk] end). }
    split; [apply Hloop|]. intros lo' hi' r0 [= <- <- <-] fuel _. apply Hloop.
  - assert (Hloop : forall fuel, (length ((w1 ++ w2) ++ rest) <= fuel)%nat ->
               is_Some (rep_loop (fun p t c k' => rmatch ic r p t c k')
                                 fuel lo hi prev ((w1 ++ w2) ++ rest) g k)).
    { intros fuel Hfuel.
      assert (Hlen : (length (w2 ++ rest) < length ((w1 ++ w2) ++ rest))%nat).
      { rewrite <- app_assoc, (length_app w1). destruct w1; [congruence | simpl; lia]. }
      destruct fuel as [|fuel]; [lia|]. cbn [rep_loop].
      match goal with |- is_Some (match hi with _ => _ end) =>
        assert (Hbody : is_Some
                  (rmatch ic r prev ((w1 ++ w2) ++ rest) g
                     (fun prev' s' g' =>
                        if (length s' <? length ((w1 ++ w2) ++ rest))%nat
                        then rep_loop (fun p t c k' => rmatch ic r p t c k') fuel
                                      (pred lo) (option_map pred hi) prev' s' g' k
                        else None)))
      end.
      { rewrite <- (app_assoc w1 w2 rest) at 1. apply IH1.
        rewrite (proj2 (Nat.ltb_lt _ _) Hlen).
        apply (proj2 (IH2 A k ltac:(rewrite after_app; exact Hk)) _ _ _ eq_refl).
        lia. }
      destruct Hbody as [a Ha].
      destruct hi as [[|h]|]; [congruence | |]; rewrite Ha; eauto. }
    split; [cbn [rmatch]; apply Hloop; lia|].
    intros lo' hi' r0 [= <- <- <-]. exact Hloop.
  - split; [|discriminate]. cbn [rmatch]. apply IH1.
    rewrite firstn_consumed. exact Hk.
Qed.

Lemma rmatch_complete (ic : bool) r prev w rest g g' {A} (k : @kont A) :
  Matches ic r prev w rest g g' ->
  is_Some (k (after prev w) rest g') ->
  is_Some (rmatch ic r prev (w ++ rest) g k).
Proof. intros Hm Hk. apply (rmatch_complete_gen ic r prev w rest g g' Hm A k Hk). Qed.

(** A reading of the pattern somewhere in the subject makes the search
    succeed. *)
Lemma search_complete (ic : bool) r (pre w rest : str) g' :
  Matches ic r (after None pre) w rest None g' ->
  is_Some (search ic r (pre ++ w ++ rest)).
Proof.
  unfold search. generalize (@None N) as prev.
  induction pre as [|x pre IH]; intros prev Hm; rewrite search_from_unfold.
  - rewrite app_nil_l.
    destruct (rmatch_complete ic r prev w rest None g' (fun _ _ g => Some g) Hm)
      as [m ->]; eauto.
  - rewrite <- app_comm_cons.
    destruct (rmatch ic r prev _ None _); [eauto|].
    apply IH. rewrite after_cons in Hm. exact Hm.
Qed.

(** A pattern without [\b] reads the same text in any surroundings. *)
Lemma matches_context (ic : bool) r prev w rest g g' :
  Matches ic r prev w rest g g' -> no_wordb r = true ->
  forall prev2 rest2, Matches ic r prev2 w rest2 g g'.
Proof.
  induction 1; simpl; intros Hnw prev2 rest2; try discriminate;
    try (constructor; assumption).
  - apply andb_prop in Hnw as [Hn1 Hn2]. econstructor; eauto.
  - apply andb_prop in Hnw as [Hn1 Hn2]. apply M_AltL; eauto.
  - apply andb_prop in Hnw as [Hn1 Hn2]. apply M_AltR; eauto.
  - eapply M_RepStep; eauto.
  - econstructor; eauto.
Qed.

End MatcherComplete.

(* ===================================================================== *)
(** ** More on the Period Filter *)
(* ===================================================================== *)

Section FilterProperties.
Context {U : Unicode}.

Lemma is_q4_2025_inv (soup : node) :
  is_q4_2025 soup = true ->
  exists pattern m, pattern ∈ patterns /\ search true pattern (page_text soup) = Some m.
Proof.
  unfold is_q4_2025. intros Hq. apply existsb_exists in Hq as (p & Hin & Hs).
  apply bool_decide_eq_true in Hs as [m Hm].
  exists p, m. split; [apply list_elem_of_In; exact Hin | exact Hm].
Qed.

Lemma patterns_no_wordb (pattern : regex) :
  pattern ∈ patterns -> no_wordb pattern = true.
Proof.
  intros Hin. apply list_elem_of_In in Hin.
  assert (Hall : forallb no_wordb patterns = true) by reflexivity.
  rewrite forallb_forall in Hall. apply Hall, Hin.
Qed.

(** A reading of one of the six patterns anywhere in the page text makes
    the filter accept the page. *)
Lemma accepted_by (soup : node) (pattern : regex) (w : str) g' :
  pattern ∈ patterns ->
  Matches true pattern None w [] None g' ->
  occurs_in w (page_text soup) ->
  is_q4_2025 soup = true.
Proof.
  intros Hin Hm (pre & post & Htext). apply (is_q4_2025_by soup pattern Hin).
  rewrite Htext. apply (search_complete true pattern pre w post g').
  apply (matches_context true pattern None w [] None g' Hm).
  apply patterns_no_wordb, Hin.
Qed.

(** X15.  The filter only looks for an occurrence: a page whose text
    contains the text of an accepted page is accepted too, whatever stands
    before and after it. *)
Theorem X15_filter_monotone (soup1 soup2 : node) :
  occurs_in (page_text soup1) (page_text soup2) ->
  is_q4_2025 soup1 = true ->
  is_q4_2025 soup2 = true.
Proof.
  intros (a & b & Htext) Hq.
  apply is_q4_2025_inv in Hq as (p & m & Hin & Hs).
  apply search_sound in Hs as (pre & w & rest & prev & Hw & Hm).
  apply (accepted_by soup2 p w m Hin).
  - apply (matches_context true p prev w rest None m Hm).
    apply patterns_no_wordb, Hin.
  - exists (a ++ pre), (rest ++ b). rewrite Htext, Hw, <- !app_assoc. reflexivity.
Qed.

(** Under [re.IGNORECASE] a pattern character that is an ASCII character
    other than a letter matches itself only. *)
Lemma lit_match_uncased (c x : N) :
  c < 128 -> is_upper_AZ c = false -> is_lower_az c = false ->
  lit_match true c x = true -> x = c.
Proof.
  intros Hc Hup Hlow. unfold lit_match, sre_fixes.
  assert (Hlo : sre_lower c = c).
  { unfold sre_lower. rewrite Hup.
    destruct (N.eqb_spec c 0x130); [lia|]. destruct (N.eqb_spec c 0x212A); [lia|].
    reflexivity. }
  rewrite Hlo.
  assert (H105 : (c =? 105) = false).
  { apply N.eqb_neq. intros ->. discriminate Hlow. }
  assert (H115 : (c =? 115) = false).
  { apply N.eqb_neq. intros ->. discriminate Hlow. }
  rewrite H105, H115. cbn [existsb]. rewrite orb_false_r.
  intros Heq. apply N.eqb_eq in Heq. rewrite <- Heq in *. clear Heq.
  unfold sre_lower in *. unfold is_upper_AZ, is_lower_az in *.
  destruct (65 <=? x) eqn:E1; destruct (x <=? 90) eqn:E2; cbn [andb] in *;
    try reflexivity;
    try (destruct (N.eqb_spec x 0x130); [discriminate Hlow|];
         destruct (N.eqb_spec x 0x212A); [discriminate Hlow | reflexivity]).
  exfalso. apply N.leb_le in E1, E2.
  assert (H97 : (97 <=? x + 32) = true) by (apply N.leb_le; lia).
  assert (H122 : (x + 32 <=? 122) = true) by (apply N.leb_le; lia).
  rewrite H97, H122 in Hlow. discriminate.
Qed.

Lemma matches_lits_exact (cs : list N) prev w rest g g' :
  Forall uncased cs ->
  Matches true (fold_right (fun c r => Seq (Lit c) r) Eps cs) prev w rest g g' ->
  w = cs.
Proof.
  intros Hcs. revert prev w g. induction Hcs as [|c cs (Hc & Hup & Hlow) _ IH];
    intros prev w g Hm; simpl in Hm.
  - apply matches_eps_inv in Hm. apply Hm.
  - apply matches_seq_inv in Hm as (w1 & w2 & g1 & -> & Hlit & Hrest).
    apply IH in Hrest as ->. inversion Hlit; subst.
    match goal with H : lit_match true c _ = true |- _ =>
      apply lit_match_uncased in H; [subst; reflexivity | assumption..] end.
Qed.

Lemma matches_seqs_part (rs : list regex) (part : regex) (v : str) :
  (forall prev w rest g g', Matches true part prev w rest g g' -> w = v) ->
  In part rs ->
  forall prev w rest g g', Matches true (seqs rs) prev w rest g g' -> occurs_in v w.
Proof.
  intros Hpart. induction rs as [|r rs IH]; intros Hin prev w rest g g' Hm;
    [destruct Hin|].
  change (seqs (r :: rs)) with (Seq r (seqs rs)) in Hm.
  apply matches_seq_inv in Hm as (w1 & w2 & g1 & -> & H1 & H2).
  destruct Hin as [-> | Hin].
  - apply Hpart in H1 as ->. exists [], w2. reflexivity.
  - apply occurs_in_app_l. eapply IH; eauto.
Qed.

Lemma patterns_year (pattern : regex) :
  pattern ∈ patterns -> exists rs, pattern = seqs rs /\ In (Str "2025") rs.
Proof.
  intros Hin. unfold patterns in Hin.
  repeat (apply elem_of_cons in Hin as [-> | Hin]);
    [eexists; split; [reflexivity | cbn [In]; auto 10].. | inversion Hin].
Qed.

(** X16.  The filter accepts no page whose text does not contain "2025". *)
Theorem X16_year_needed (soup : node) :
  is_q4_2025 soup = true -> occurs_in (cps "2025") (page_text soup).
Proof.
  intros Hq. apply is_q4_2025_inv in Hq as (p & m & Hin & Hs).
  apply search_sound in Hs as (pre & w & rest & prev & -> & Hm).
  apply patterns_year in Hin as (rs & -> & Hyear).
  apply occurs_in_app_l.
  assert (Hpart : forall prev0 w0 rest0 g0 g0',
             Matches true (Str "2025") prev0 w0 rest0 g0 g0' -> w0 = cps "2025").
  { intros prev0 w0 rest0 g0 g0' Hm0. eapply matches_lits_exact; [|exact Hm0].
    repeat constructor. }
  destruct (matches_seqs_part rs (Str "2025") (cps "2025") Hpart Hyear
              prev w rest None m Hm) as (a & b & ->).
  exists a, (b ++ rest). rewrite <- !app_assoc. reflexivity.
Qed.

End FilterProperties.

Section AcceptedForms.
Context {U : Unicode}.

(** Under [re.IGNORECASE] an ASCII pattern character matches an ASCII
    character with the same lower case. *)
Lemma lit_match_spelled (c a : N) :
  c < 128 -> is_ascii a = true -> ascii_lower a = ascii_lower c ->
  lit_match true c a = true.
Proof.
  intros Hc Ha Heq. apply N.ltb_lt in Ha.
  assert (Hlow : forall y, y < 128 -> sre_lower y = ascii_lower y).
  { intros y Hy. unfold sre_lower, ascii_lower. destruct (is_upper_AZ y); [reflexivity|].
    destruct (N.eqb_spec y 0x130); [lia|]. destruct (N.eqb_spec y 0x212A); [lia|].
    reflexivity. }
  unfold lit_match. rewrite (Hlow a Ha), (Hlow c Hc), Heq, N.eqb_refl. reflexivity.
Qed.

Lemma matches_lits (cs v : list N) prev rest g :
  Forall2 (fun c a => lit_match true c a = true) cs v ->
  Matches true (fold_right (fun c r => Seq (Lit c) r) Eps cs) prev v rest g g.
Proof.
  intros Hcs. revert prev. induction Hcs as [|c a cs v Hca _ IH]; intros prev; simpl.
  - constructor.
  - change (a :: v) with ([a] ++ v). econstructor; [constructor; exact Hca | apply IH].
Qed.

(** A literal of the pattern reads every spelling of it in ASCII letters
    of either case. *)
Lemma matches_Str (s : string) (v : str) prev rest g :
  Forall (fun c => c < 128) (cps s) ->
  spells v (List.map ascii_lower (cps s)) ->
  Matches true (Str s) prev v rest g g.
Proof.
  intros Hs Hv. apply matches_lits. unfold spells in Hv.
  revert v Hv. induction Hs as [|c cs Hc _ IH]; intros v Hv; simpl in Hv.
  - inversion Hv. constructor.
  - inversion Hv as [|a b v' w' [Ha Hab] Hrest]; subst. constructor.
    + apply lit_match_spelled; assumption.
    + apply IH, Hrest.
Qed.

Lemma matches_blank (ws : str) prev rest g :
  blank ws -> Matches true (Star Space) prev ws rest g g.
Proof.
  intros Hws. revert prev. induction Hws as [|x ws Hx _ IH]; intros prev.
  - apply M_RepStop.
  - change (x :: ws) with ([x] ++ ws).
    eapply (M_RepStep true 0 None Space); [discriminate | discriminate | |apply IH].
    constructor. exact Hx.
Qed.

Lemma matches_opt_skip r prev rest g : Matches true (Opt r) prev [] rest g g.
Proof. apply M_RepStop. Qed.

Lemma matches_opt_take r (w : str) prev rest g g' :
  w <> [] -> Matches true r prev w rest g g' -> Matches true (Opt r) prev w rest g g'.
Proof.
  intros Hw Hm. rewrite <- (app_nil_r w).
  eapply (M_RepStep true 0 (Some 1%nat) r); [discriminate | exact Hw | exact Hm|].
  apply M_RepStop.
Qed.

(** Pieces that read their text in any surroundings, one after the other. *)
Lemma matches_seqs (rs : list regex) (ws : list str) g :
  Forall2 (fun r w => forall prev rest, Matches true r prev w rest g g) rs ws ->
  forall prev rest, Matches true (seqs rs) prev (concat ws) rest g g.
Proof.
  induction 1 as [|r w rs ws Hr _ IH]; intros prev rest; simpl.
  - constructor.
  - econstructor; [apply Hr | apply IH].
Qed.

Lemma matches_dec (m : str) prev rest g :
  spells m (cps "dec") \/ spells m (cps "december") ->
  Matches true dec_ember prev m rest g g.
Proof.
  intros [Hm | Hm]; unfold dec_ember.
  - rewrite <- (app_nil_r m). econstructor; [|apply matches_opt_skip].
    apply matches_Str; [repeat constructor | exact Hm].
  - unfold spells in Hm.
    change (cps "december") with (cps "dec" ++ cps "ember") in Hm.
    apply Forall2_app_inv_r in Hm as (m1 & m2 & H1 & H2 & ->).
    econstructor; [apply matches_Str; [repeat constructor | exact H1]|].
    apply matches_opt_take; [inversion H2; discriminate|].
    apply matches_Str; [repeat constructor | exact H2].
Qed.

Lemma matches_day (d : str) prev rest g :
  d ∈ [cps "31"; cps "30"] -> Matches true day_31_30 prev d rest g g.
Proof.
  intros Hd. apply elem_of_cons in Hd as [-> | Hd].
  - apply M_AltL, matches_Str; repeat constructor.
  - apply list_elem_of_singleton in Hd as ->.
    apply M_AltR, matches_Str; repeat constructor.
Qed.

Lemma matches_sep (c : N) prev rest g :
  c ∈ [ch "/"; ch "-"] -> Matches true sep_set prev [c] rest g g.
Proof.
  intros Hc. constructor.
  apply elem_of_cons in Hc as [-> | Hc]; [reflexivity|].
  apply list_elem_of_singleton in Hc as ->. reflexivity.
Qed.

(** Splits a sequence of pieces into one goal per piece. *)
Ltac pieces :=
  repeat (apply List.Forall2_cons; [intros ? ?|]); try apply List.Forall2_nil.

(** X17.  What the filter accepts, wherever it stands in the page text:
    "Q4" in either case, any white space or none, "2025"; the day 31 or 30,
    white space or none, "Dec" or "December" in any case, white space or
    none, "2025"; the month first, then the day, an optional comma and
    "2025"; and the numeric dates 12 31 2025 and 2025 12 31 with a slash or
    a hyphen at each of the two places. *)
Theorem X17_accepted_forms (soup : node) :
  (forall q ws,
     spells q (cps "q4") -> blank ws ->
     occurs_in (q ++ ws ++ cps "2025") (page_text soup) ->
     is_q4_2025 soup = true)
  /\ (forall d ws1 m ws2,
        d ∈ [cps "31"; cps "30"] ->
        spells m (cps "dec") \/ spells m (cps "december") ->
        blank ws1 -> blank ws2 ->
        occurs_in (d ++ ws1 ++ m ++ ws2 ++ cps "2025") (page_text soup) ->
        is_q4_2025 soup = true)
  /\ (forall m ws1 d comma ws2,
        spells m (cps "dec") \/ spells m (cps "december") ->
        d ∈ [cps "31"; cps "30"] ->
        comma ∈ [[]; cps ","] ->
        blank ws1 -> blank ws2 ->
        occurs_in (m ++ ws1 ++ d ++ comma ++ ws2 ++ cps "2025") (page_text soup) ->
        is_q4_2025 soup = true)
  /\ (forall s1 s2,
        s1 ∈ [ch "/"; ch "-"] -> s2 ∈ [ch "/"; ch "-"] ->
        occurs_in (cps "12" ++ [s1] ++ cps "31" ++ [s2] ++ cps "2025") (page_text soup)
        \/ occurs_in (cps "2025" ++ [s1] ++ cps "12" ++ [s2] ++ cps "31") (page_text soup) ->
        is_q4_2025 soup = true).
Proof.
  split; [|split; [|split]].
  - intros q ws Hq Hws Hocc.
    apply (accepted_by soup (nth 0 patterns Eps) (q ++ ws ++ cps "2025") None);
      [set_solver | | exact Hocc].
    rewrite <- (app_nil_r (cps "2025")).
    apply (matches_seqs [Str "Q4"; Star Space; Str "2025"] [q; ws; cps "2025"]).
    pieces.
    + apply matches_Str; [repeat constructor | exact Hq].
    + apply matches_blank, Hws.
    + apply matches_Str; repeat constructor.
  - intros d ws1 m ws2 Hd Hm Hws1 Hws2 Hocc.
    apply (accepted_by soup (nth 1 patterns Eps)
             (d ++ ws1 ++ m ++ ws2 ++ cps "2025") None);
      [set_solver | | exact Hocc].
    rewrite <- (app_nil_r (cps "2025")).
    apply (matches_seqs [day_31_30; Star Space; dec_ember; Star Space; Str "2025"]
             [d; ws1; m; ws2; cps "2025"]).
    pieces.
    + apply matches_day, Hd.
    + apply matches_blank, Hws1.
    + apply matches_dec, Hm.
    + apply matches_blank, Hws2.
    + apply matches_Str; repeat constructor.
  - intros m ws1 d comma ws2 Hm Hd Hcomma Hws1 Hws2 Hocc.
    apply (accepted_by soup (nth 2 patterns Eps)
             (m ++ ws1 ++ d ++ comma ++ ws2 ++ cps "2025") None);
      [set_solver | | exact Hocc].
    rewrite <- (app_nil_r (cps "2025")).
    apply (matches_seqs [dec_ember; Star Space; day_31_30; Opt (Lit (ch ","));
                         Star Space; Str "2025"]
             [m; ws1; d; comma; ws2; cps "2025"]).
    pieces.
    + apply matches_dec, Hm.
    + apply matches_blank, Hws1.
    + apply matches_day, Hd.
    + apply elem_of_cons in Hcomma as [-> | Hcomma]; [apply matches_opt_skip|].
      apply list_elem_of_singleton in Hcomma as ->.
      apply matches_opt_take; [discriminate|]. constructor. reflexivity.
    + apply matches_blank, Hws2.
    + apply matches_Str; repeat constructor.
  - intros s1 s2 Hs1 Hs2 [Hocc | Hocc].
    + apply (accepted_by soup (nth 3 patterns Eps)
               (cps "12" ++ [s1] ++ cps "31" ++ [s2] ++ cps "2025") None);
        [set_solver | | exact Hocc].
      rewrite <- (app_nil_r (cps "2025")).
      apply (matches_seqs [Str "12"; sep_set; Str "31"; sep_set; Str "2025"]
               [cps "12"; [s1]; cps "31"; [s2]; cps "2025"]).
      pieces;
        try (apply matches_sep; assumption);
        apply matches_Str; repeat constructor.
    + apply (accepted_by soup (nth 4 patterns Eps)
               (cps "2025" ++ [s1] ++ cps "12" ++ [s2] ++ cps "31") None);
        [set_solver | | exact Hocc].
      rewrite <- (app_nil_r (cps "31")).
      apply (matches_seqs [Str "2025"; sep_set; Str "12"; sep_set; Str "31"]
               [cps "2025"; [s1]; cps "12"; [s2]; cps "31"]).
      pieces;
        try (apply matches_sep; assumption);
        apply matches_Str; repeat constructor.
Qed.

End AcceptedForms.

Lemma X15_filter_monotone_witness :
  @is_q4_2025 plain_data (text_page "Holdings as of Q4 2025, updated") = true.
Proof.
  apply (@X15_filter_monotone plain_data (text_page "Q4 2025")).
  - exists (cps "Holdings as of "), (cps ", updated"). reflexivity.
  - vm_compute. reflexivity.
Defined.

Lemma X16_year_needed_witness :
  occurs_in (cps "2025") (@page_text (text_page "q4   2025")).
Proof.
  apply (@X16_year_needed plain_data). vm_compute. reflexivity.
Defined.

Lemma X17_accepted_forms_witness :
  @is_q4_2025 plain_data (text_page "Portfolio date: 30 DECEMBER2025") = true.
Proof.
  apply (proj1 (proj2 (@X17_accepted_forms plain_data
                         (text_page "Portfolio date: 30 DECEMBER2025")))
           (cps "30") (cps " ") (cps "DECEMBER") []).
  - set_solver.
  - right. repeat constructor.
  - repeat constructor.
  - constructor.
  - exists (cps "Portfolio date: "), []. reflexivity.
Defined.

(* ===================================================================== *)
(** ** The text of a page *)
(* ===================================================================== *)

Section PageText.
Context {U : Unicode}.

Lemma occurs_in_trans (u v w : str) :
  occurs_in u v -> occurs_in v w -> occurs_in u w.
Proof.
  intros (a & b & ->) (c & d & ->). exists (c ++ a), (b ++ d).
  rewrite <- !app_assoc. reflexivity.
Qed.

Lemma lstrip_keeps (pre v post : str) :
  v <> [] -> (forall c, head v = Some c -> is_space c = false) ->
  exists pre', lstrip (pre ++ v ++ post) = pre' ++ v ++ post.
Proof.
  intros Hv Hhead. induction pre as [|x pre [pre' IH]]; simpl.
  - exists []. destruct v as [|c v]; [congruence|]. simpl.
    rewrite (Hhead c eq_refl). reflexivity.
  - destruct (is_space x); [exists pre'; exact IH|].
    exists (x :: pre). reflexivity.
Qed.

(** [strip] keeps whatever stands between two characters that are not
    white space. *)
Lemma strip_keeps (v s : str) :
  v <> [] -> trimmed v -> occurs_in v s -> occurs_in v (strip s).
Proof.
  intros Hv [Hhead Hlast] (pre & post & ->). unfold strip.
  destruct (lstrip_keeps pre v post Hv Hhead) as [pre' ->].
  rewrite !rev_app_distr, <- app_assoc.
  destruct (lstrip_keeps (rev post) (rev v) (rev pre')) as [post' ->].
  - intros Hnil. apply (f_equal (@rev N)) in Hnil. rewrite rev_involutive in Hnil.
    exact (Hv Hnil).
  - intros c Hc. rewrite head_rev in Hc. apply Hlast, Hc.
  - rewrite !rev_app_distr, !rev_involutive, <- app_assoc.
    exists pre', (rev post'). reflexivity.
Qed.

Lemma join_contains (sep p : str) (parts : list str) :
  In p parts -> occurs_in p (join sep parts).
Proof.
  induction parts as [|q ps IH]; [intros []|].
  intros Hin. destruct ps as [|q' ps].
  - destruct Hin as [-> | []]. exists [], []. simpl. rewrite app_nil_r. reflexivity.
  - change (join sep (q :: q' :: ps)) with (q ++ sep ++ join sep (q' :: ps)).
    destruct Hin as [-> | Hin].
    + exists [], (sep ++ join sep (q' :: ps)). reflexivity.
    + do 2 apply occurs_in_app_l. apply IH, Hin.
Qed.

(** Runs the matcher on a text with an unknown tail, settling the progress
    tests of the repeats. *)
Ltac run_on_tail :=
  vm_compute;
  repeat match goal with
         | |- context [if ?b then _ else _] =>
             replace b with true by (symmetry; apply Nat.leb_le; lia);
             vm_compute
         end.

(** X18.  Whatever stands in a text string of the page between two
    characters that are not white space is in the text the page is judged
    by; so a page one of whose text strings contains "Q4 2025", "31 Dec
    2025", "December 31, 2025", "12/31/2025" or "2025-12-31" is accepted,
    wherever in the tree the string is. *)
Theorem X18_text_kept (soup : node) (s v : str) :
  Text s ∈ descendants soup ->
  occurs_in v s ->
  v <> [] -> trimmed v ->
  (forall sep, occurs_in v (get_text sep soup))
  /\ (v ∈ [cps "Q4 2025"; cps "31 Dec 2025"; cps "December 31, 2025";
           cps "12/31/2025"; cps "2025-12-31"] ->
      is_q4_2025 soup = true).
Proof.
  intros Hs Hocc Hv Htrim.
  assert (Htext : forall sep, occurs_in v (get_text sep soup)).
  { intros sep. apply (occurs_in_trans v (strip s)); [apply strip_keeps; assumption|].
    unfold get_text. apply join_contains. unfold stripped_strings.
    apply filter_In. split.
    - apply list_elem_of_In, list_elem_of_omap. exists (Text s). split; [exact Hs | reflexivity].
    - destruct (strip_keeps v s Hv Htrim Hocc) as (a & b & ->).
      destruct a; [destruct v; [congruence | reflexivity] | reflexivity]. }
  split; [exact Htext|]. intros Hfive.
  specialize (Htext (cps " ")). fold (page_text soup) in Htext. clear -Hfive Htext.
  repeat (apply elem_of_cons in Hfive as [-> | Hfive]); [..|inversion Hfive].
  - apply (is_q4_2025_by soup (nth 0 patterns Eps)); [set_solver|].
    eapply search_found; [|exact Htext]. intros prev post. run_on_tail. eauto.
  - apply (is_q4_2025_by soup (nth 1 patterns Eps)); [set_solver|].
    eapply search_found; [|exact Htext]. intros prev post. run_on_tail. eauto.
  - apply (is_q4_2025_by soup (nth 2 patterns Eps)); [set_solver|].
    eapply search_found; [|exact Htext]. intros prev post. run_on_tail. eauto.
  - apply (is_q4_2025_by soup (nth 3 patterns Eps)); [set_solver|].
    eapply search_found; [|exact Htext]. intros prev post. run_on_tail. eauto.
  - apply (is_q4_2025_by soup (nth 4 patterns Eps)); [set_solver|].
    eapply search_found; [|exact Htext]. intros prev post. run_on_tail. eauto.
Qed.

End PageText.

Section HeaderCase.
Context {U : Unicode}.
Local Open Scope string_scope.

Lemma goes_to_stock (h : str) :
  goes_to "stock" h = str_in (cps "stock") h.
Proof.
  unfold goes_to, field_of. destruct (str_in (cps "stock") h); [reflexivity|].
  apply bool_decide_eq_false_2.
  destruct (str_in (cps "activity") h); [discriminate|].
  destruct (_ && _); [discriminate|]. destruct (_ || _); discriminate.
Qed.

Lemma goes_to_activity (h : str) :
  goes_to "activity" h = negb (str_in (cps "stock") h) && str_in (cps "activity") h.
Proof.
  unfold goes_to, field_of. destruct (str_in (cps "stock") h).
  { apply bool_decide_eq_false_2. discriminate. }
  destruct (str_in (cps "activity") h); [reflexivity|].
  apply bool_decide_eq_false_2.
  destruct (_ && _); [discriminate|]. destruct (_ || _); discriminate.
Qed.

(** A header that goes to a field other than the price puts the field in
    the column map, at its own position or at that of a later header that
    goes to the same field. *)
Lemma col_map_from (headers : list str) (key : string) :
  key <> "price" ->
  forall i h,
    headers !! i = Some h -> goes_to key h = true ->
    exists j h', build_col_map headers !! key = Some j /\ (i <= j)%nat
                 /\ headers !! j = Some h' /\ goes_to key h' = true.
Proof.
  intros Hkey. induction headers as [|h0 l IH] using rev_ind; intros i h Hi Hgo.
  - discriminate.
  - rewrite build_col_map_snoc, map_column_lookup.
    rewrite (bool_decide_eq_false_2 _ Hkey). cbn [andb].
    pose proof (lookup_lt_Some _ _ _ Hi) as Hlt. rewrite length_app in Hlt.
    cbn [length] in Hlt.
    destruct (goes_to key h0) eqn:Hg0.
    + exists (length l), h0. split; [reflexivity|]. split; [lia|].
      split; [apply list_lookup_middle; reflexivity | exact Hg0].
    + destruct (decide (i < length l)%nat) as [Hil|Hil].
      * rewrite lookup_app_l in Hi by exact Hil.
        destruct (IH i h Hi Hgo) as (j & h' & Hj & Hle & Hlj & Hg).
        exists j, h'. split; [exact Hj|]. split; [exact Hle|].
        split; [|exact Hg].
        rewrite lookup_app_l; [exact Hlj|]. apply lookup_lt_Some in Hlj. exact Hlj.
      * rewrite lookup_app_r in Hi by lia.
        replace (i - length l)%nat with 0%nat in Hi by lia.
        injection Hi as <-. congruence.
Qed.

(** X19.  The header keywords are found in any letter case.  When a cell
    of the header row has "stock" in its text, in any letter case, the
    column map [parse_holdings] builds from the row has a stock column: the
    position of that cell or of a later cell whose lower-cased text
    contains "stock".  When a cell has "activity" in its text, in any
    letter case, and not "stock", the column map has an activity column:
    the position of that cell or of a later cell whose lower-cased text
    contains "activity" and not "stock". *)
Theorem X19_header_case (header_row th : node) (i : nat) (v : str) :
  find_all (tag_named [cps "th"; cps "td"]) header_row !! i = Some th ->
  occurs_in v (get_text (cps " ") th) ->
  (spells v (cps "stock") ->
   exists j h,
     build_col_map (header_texts header_row) !! "stock" = Some j
     /\ (i <= j)%nat
     /\ header_texts header_row !! j = Some h
     /\ str_in (cps "stock") h = true)
  /\ (spells v (cps "activity") ->
      str_in (cps "stock") (lower (get_text (cps " ") th)) = false ->
      exists j h,
        build_col_map (header_texts header_row) !! "activity" = Some j
        /\ (i <= j)%nat
        /\ header_texts header_row !! j = Some h
        /\ str_in (cps "activity") h = true
        /\ str_in (cps "stock") h = false).
Proof.
  intros Hcell Hocc.
  assert (Hh : header_texts header_row !! i = Some (lower (get_text (cps " ") th))).
  { unfold header_texts.
    change (List.map ?f ?l) with (f <$> l).
    rewrite list_lookup_fmap, Hcell. reflexivity. }
  split.
  - intros Hv.
    destruct (col_map_from (header_texts header_row) "stock" ltac:(discriminate)
                i _ Hh) as (j & h & Hj & Hle & Hlj & Hg).
    { rewrite goes_to_stock. exact (str_in_lower v (cps "stock") _ Hv Hocc). }
    exists j, h. rewrite goes_to_stock in Hg. auto.
  - intros Hv Hns.
    destruct (col_map_from (header_texts header_row) "activity" ltac:(discriminate)
                i _ Hh) as (j & h & Hj & Hle & Hlj & Hg).
    { rewrite goes_to_activity, Hns.
      exact (str_in_lower v (cps "activity") _ Hv Hocc). }
    exists j, h. rewrite goes_to_activity in Hg.
    apply andb_true_iff in Hg as [Hg1 Hg2]. apply negb_true_iff in Hg1. auto.
Qed.

End HeaderCase.

Lemma X18_text_kept_witness :
  @is_q4_2025 plain_data (text_page "  Period: Q4 2025  ") = true.
Proof.
  apply (proj2 (@X18_text_kept plain_data (text_page "  Period: Q4 2025  ")
                  (cps "  Period: Q4 2025  ") (cps "Q4 2025")
                  ltac:(vm_compute; set_solver)
                  ltac:(exists (cps "  Period: "), (cps "  "); reflexivity)
                  ltac:(discriminate)
                  ltac:(split; intros c [= <-]; reflexivity))).
  set_solver.
Defined.

Lemma X19_header_case_witness :
  exists j h,
    build_col_map (@header_texts plain_data apple_header) !! "stock"%string = Some j
    /\ (0 <= j)%nat
    /\ @header_texts plain_data apple_header !! j = Some h
    /\ str_in (cps "stock") h = true.
Proof.
  apply (proj1 (@X19_header_case plain_data apple_header (cell "th" "Stock") 0
                  (cps "Stock")
                  ltac:(vm_compute; reflexivity)
                  ltac:(exists [], []; vm_compute; reflexivity))).
  repeat constructor.
Defined.

Lemma X6_dedup_stable_witness :
  dedup [buffett] = [buffett].
Proof.
  apply (proj2 (proj2 (proj2 (X6_dedup_stable [buffett])))).
  repeat constructor. set_solver.
Defined.
